(** * cf_ai_dev_copilot: session store, context merge and rate limiter

    A shallow embedding of the stateful core of the repository:

    - [RateLimit]: the fixed-window limiter of [src/api/rate-limiter.ts];
    - [Agent]: the [DevCopilotAgent] Durable Object (messages, project
      context and session metadata kept in three SQLite tables);
    - [Orchestrator]: the step budget handed to the model/tool loop in
      [src/server.ts].

    Clock readings ([Date.now()], [new Date().toISOString()]) and the
    output of [Math.random()] are inputs of the operations that read them. *)

From Stdlib Require Import ZArith Bool Ascii String List Permutation Sorted Lia.
From Stdlib Require Import OrderedTypeEx.
From stdpp Require Import base option list sorting gmap strings pretty.

Local Open Scope string_scope.
Local Open Scope Z_scope.

(** ** Rate limiter *)

Module RateLimit.

Record RateLimitEntry := { count : Z; resetAt : Z }.

Record RateLimitConfig := { maxRequests : Z; windowMs : Z }.

Record RateLimitResult := {
  allowed : bool;
  remaining : Z;
  limit : Z;
  resultResetAt : Z;
  retryAfter : option Z
}.

(** The constructor fills the defaults in: sixty requests a minute. *)
Definition mkConfig (maxR winMs : option Z) : RateLimitConfig :=
  {| maxRequests := default 60 maxR; windowMs := default (60 * 1000) winMs |}.

(** [Math.ceil(x / 1000)] on integers. *)
Definition ceil_div_1000 (x : Z) : Z := - ((- x) / 1000).

(** [check(key)], with [now] the value of [Date.now()].  The entry
    object lives in the map, so [entry.count++] is an update of the
    stored entry. *)
Definition check (cfg : RateLimitConfig) (now : Z) (key : string)
    (store : gmap string RateLimitEntry)
    : RateLimitResult * gmap string RateLimitEntry :=
  let fresh :=
    let r := now + windowMs cfg in
    ({| allowed := true; remaining := maxRequests cfg - 1;
        limit := maxRequests cfg; resultResetAt := r;
        retryAfter := None |},
     <[key := {| count := 1; resetAt := r |}]> store) in
  match store !! key with
  | None => fresh
  | Some entry =>
    if resetAt entry <? now then fresh
    else if count entry <? maxRequests cfg then
      let c := count entry + 1 in
      ({| allowed := true; remaining := maxRequests cfg - c;
          limit := maxRequests cfg; resultResetAt := resetAt entry;
          retryAfter := None |},
       <[key := {| count := c; resetAt := resetAt entry |}]> store)
    else
      ({| allowed := false; remaining := 0;
          limit := maxRequests cfg; resultResetAt := resetAt entry;
          retryAfter := Some (ceil_div_1000 (resetAt entry - now)) |},
       store)
  end.

(** [cleanup()], the periodic sweep. *)
Definition cleanup (now : Z) (store : gmap string RateLimitEntry)
    : gmap string RateLimitEntry :=
  filter (fun kv => negb (resetAt (snd kv) <? now) = true) store.

Definition reset (key : string) (store : gmap string RateLimitEntry)
    : gmap string RateLimitEntry := delete key store.

(** Successive [check(key)] calls at the given clock readings; the
    [allowed] flags come back in call order. *)
Fixpoint check_seq (cfg : RateLimitConfig) (key : string) (times : list Z)
    (store : gmap string RateLimitEntry)
    : list bool * gmap string RateLimitEntry :=
  match times with
  | [] => ([], store)
  | now :: rest =>
    let '(r, store1) := check cfg now key store in
    let '(bs, store2) := check_seq cfg key rest store1 in
    (allowed r :: bs, store2)
  end.

(** No entry under [key], or one whose window is over at [now]. *)
Definition no_live_entry (now : Z) (key : string)
    (store : gmap string RateLimitEntry) : Prop :=
  match store !! key with
  | None => True
  | Some e => resetAt e < now
  end.

Definition cfg_3_1000 : RateLimitConfig := mkConfig (Some 3) (Some 1000).

(** Every entry the limiter wrote under [cfg]: counted from one, never
    beyond the limit (a fresh entry counts one whatever the limit). *)
Definition entries_bounded (cfg : RateLimitConfig)
    (store : gmap string RateLimitEntry) : Prop :=
  forall k e, store !! k = Some e ->
    1 <= count e <= Z.max 1 (maxRequests cfg).

(** [clear()]. *)
Definition clear (store : gmap string RateLimitEntry)
    : gmap string RateLimitEntry := ∅.

(** [getHeaders(result)].  [String(n)] and [Date.prototype.toISOString]
    are the platform's; the header values are built with them. *)
Section Headers.
Variable String_of_number : Z -> string.
Variable toISOString : Z -> string.

Definition getHeaders (r : RateLimitResult) : gmap string string :=
  let headers : gmap string string :=
    <["X-RateLimit-Reset" := toISOString (resultResetAt r)]>
      (<["X-RateLimit-Remaining" := String_of_number (remaining r)]>
         (<["X-RateLimit-Limit" := String_of_number (limit r)]> ∅)) in
  match retryAfter r with
  | Some s => <["Retry-After" := String_of_number s]> headers
  | None => headers
  end.

End Headers.

(** *** Client identity

    The three request headers [getClientIdentifier] reads; a header
    value is a byte string, [None] when the header is not sent. *)
Record RequestHeaders := {
  x_forwarded_for : option string;
  x_real_ip : option string;
  cf_connecting_ip : option string
}.

(** The code units below 256 that [String.prototype.trim] strips: TAB,
    LF, VT, FF, CR, SPACE and NBSP. *)
Definition is_white_space (c : ascii) : bool :=
  let n := N_of_ascii c in
  ((9 <=? n) && (n <=? 13) || (n =? 32) || (n =? 160))%N.

Fixpoint trim_start (s : string) : string :=
  match s with
  | EmptyString => EmptyString
  | String c s' => if is_white_space c then trim_start s' else s
  end.

Fixpoint trim_end (s : string) : string :=
  match s with
  | EmptyString => EmptyString
  | String c s' =>
    match trim_end s' with
    | EmptyString => if is_white_space c then EmptyString else String c EmptyString
    | t => String c t
    end
  end.

Definition trim (s : string) : string := trim_end (trim_start s).

(** [s.split(",")[0]]: what comes before the first comma. *)
Fixpoint first_segment (s : string) : string :=
  match s with
  | EmptyString => EmptyString
  | String c s' =>
    if Ascii.eqb c "," then EmptyString else String c (first_segment s')
  end.

(** A header that is sent and not empty. *)
Definition header_truthy (h : option string) : option string :=
  match h with
  | Some v => if String.eqb v "" then None else Some v
  | None => None
  end.

Definition getClientIdentifier (h : RequestHeaders) : string :=
  match header_truthy (x_forwarded_for h) with
  | Some forwardedFor => trim (first_segment forwardedFor)
  | None =>
    match header_truthy (x_real_ip h) with
    | Some realIp => realIp
    | None =>
      match header_truthy (cf_connecting_ip h) with
      | Some cfConnectingIp => cfConnectingIp
      | None => "anonymous"
      end
    end
  end.

(** No comma among the bytes of [s]. *)
Fixpoint comma_free (s : string) : bool :=
  match s with
  | EmptyString => true
  | String c s' => negb (Ascii.eqb c ",") && comma_free s'
  end.

End RateLimit.

(** ** Thrown errors

    A JavaScript call either returns or throws; the thrown value is
    reduced to its message. *)

Inductive result (A : Type) : Type :=
| Ok (a : A)
| Throw (msg : string).
Arguments Ok {A} a.
Arguments Throw {A} msg.

#[global] Instance result_ret : MRet result := fun _ a => Ok a.
#[global] Instance result_bind : MBind result := fun _ _ f m =>
  match m with
  | Ok a => f a
  | Throw msg => Throw msg
  end.

#[global] Instance result_fmap : FMap result := fun _ _ f m =>
  match m with
  | Ok a => Ok (f a)
  | Throw msg => Throw msg
  end.

(** [try { body } catch (error) { handler(error.message) }]. *)
Definition try_catch {A} (body : result A) (handler : string -> result A)
    : result A :=
  match body with
  | Ok a => Ok a
  | Throw msg => handler msg
  end.

(** ** The Durable Object *)

Module Agent.

(** *** Object properties

    What a JavaScript object holds under a key: nothing (the key is
    absent), [undefined], [null], or a value.  The spread
    [{...a, ...b}] copies every own key of [b], also one whose value is
    [undefined]. *)
Inductive field (A : Type) : Type :=
| Absent
| Undefined
| Null
| Val (a : A).
Arguments Absent {A}.
Arguments Undefined {A}.
Arguments Null {A}.
Arguments Val {A} a.

Definition spread {A} (a b : field A) : field A :=
  match b with
  | Absent => a
  | _ => b
  end.

(** [x ?? null], as bound to a SQL parameter. *)
Definition nullish_to_null {A} (x : field A) : option A :=
  match x with
  | Val a => Some a
  | _ => None
  end.

(** The elements of a field read as a list: none unless it holds one. *)
Definition items {A} (x : field (list A)) : list A :=
  match x with
  | Val l => l
  | _ => []
  end.

(** [[...new Set(l)]]: insertion order, first occurrence kept. *)
Definition set_elements {A} `{EqDecision A} (l : list A) : list A :=
  fold_left (fun acc x => if decide (x ∈ acc) then acc else (acc ++ [x])%list) l [].

(** *** types.ts *)

Inductive Role := user | assistant | system.

Record MessageMetadata := {
  toolName : option string;
  toolResult : option string;
  codeLanguage : option string;
  hasCode : option bool;
  processingTime : option Z
}.

Record ConversationMessage := {
  id : string;
  role : Role;
  content : string;
  timestamp : string;
  metadata : option MessageMetadata
}.

Record ResolvedIssue := {
  issue_timestamp : string;
  issue : string;
  solution : string;
  errorCodes : option (list string);
  affectedFiles : option (list string)
}.

Inductive CloudflareService :=
| Workers | KV | D1 | R2 | DurableObjects | Queues | Vectorize
| WorkersAI | Pages | Hyperdrive | BrowserRendering | EmailWorkers.

(** [ProjectContext]; every property is optional, so
    [Partial<ProjectContext>] is the same type. *)
Record ProjectContext := {
  workerCode : field string;
  errorLogs : field (list string);
  resolvedIssues : field (list ResolvedIssue);
  cloudflareServices : field (list CloudflareService);
  projectName : field string;
  lastUpdated : field string
}.

(** The object literal [{}]. *)
Definition empty_context : ProjectContext :=
  {| workerCode := Absent; errorLogs := Absent; resolvedIssues := Absent;
     cloudflareServices := Absent; projectName := Absent;
     lastUpdated := Absent |}.

Record SessionInfo := {
  sessionId : string;
  createdAt : string;
  lastActivityAt : string;
  messageCount : Z;
  isActive : bool
}.

Record GetHistoryOptions := {
  opt_limit : option Z;
  opt_role : option Role;
  opt_after : option string;
  opt_before : option string
}.

Record StateOperationResult := {
  success : bool;
  error : option string;
  data : option ProjectContext
}.

(** *** The SQLite tables *)

(** The text of a JSON column: what [JSON.stringify] wrote for a value,
    or any other text.  [JSON.parse] gives the value back on the former
    and throws on the latter. *)
Inductive json_text (A : Type) : Type :=
| JsonOf (v : A)
| OtherText (raw : string).
Arguments JsonOf {A} v.
Arguments OtherText {A} raw.

Definition JSON_stringify {A} (v : A) : json_text A := JsonOf v.

Definition JSON_parse {A} (t : json_text A) : result A :=
  match t with
  | JsonOf v => Ok v
  | OtherText _ => Throw "Unexpected token in JSON"
  end.

(** Truthiness of a nullable TEXT cell: [NULL] and the empty string
    are falsy. *)
Definition cell_truthy {A} (c : option (json_text A)) : bool :=
  match c with
  | None => false
  | Some (OtherText "") => false
  | Some _ => true
  end.

Record MessageRow := {
  row_id : string;
  row_role : Role;
  row_content : string;
  row_timestamp : string;
  row_metadata : option (json_text MessageMetadata)
}.

Record ContextRow := {
  worker_code : option string;
  error_logs : option (json_text (list string));
  resolved_issues : option (json_text (list ResolvedIssue));
  cloudflare_services : option (json_text (list CloudflareService));
  project_name : option string;
  last_updated : option string
}.

Record SessionRow := {
  session_id : string;
  created_at : string;
  last_activity_at : string;
  message_count : Z;
  is_active : Z
}.

(** [messages] in storage order; [project_context] and [session_info]
    hold at most the row [id = 1].  [broken] stands for a storage
    that refuses every statement: [sql.exec] then throws. *)
Record Db := {
  messages : list MessageRow;
  project_context : option ContextRow;
  session_info : option SessionRow;
  broken : bool
}.

Record Agent := {
  sql : Db;
  sessionCache : option SessionInfo
}.

Definition empty_db : Db :=
  {| messages := []; project_context := None; session_info := None;
     broken := false |}.

(** One reading of the environment: [Date.now()], the digits that
    [Math.random().toString(36).substring(2, 11)] yields, and
    [new Date().toISOString()].  A method takes one reading: the calls
    it makes to [getCurrentTimestamp] see the same instant, and it
    draws at most one identifier. *)
Record Env := {
  date_now : Z;
  random36 : string;
  iso_now : string
}.

Definition generateId (e : Env) : string :=
  pretty (date_now e) +:+ "-" +:+ random36 e.

Definition getCurrentTimestamp (e : Env) : string := iso_now e.

(** Every [sql.exec] starts here. *)
Definition exec (db : Db) : result unit :=
  if broken db then Throw "SQL error" else Ok tt.

Definition with_messages (db : Db) (ms : list MessageRow) : Db :=
  {| messages := ms; project_context := project_context db;
     session_info := session_info db; broken := broken db |}.

Definition with_context (db : Db) (c : option ContextRow) : Db :=
  {| messages := messages db; project_context := c;
     session_info := session_info db; broken := broken db |}.

Definition with_session (db : Db) (s : option SessionRow) : Db :=
  {| messages := messages db; project_context := project_context db;
     session_info := s; broken := broken db |}.

(** *** Session bookkeeping

    [cursor.one()] of the Durable Object SQL API returns the row when
    the query yields exactly one, and throws otherwise.  [session_info]
    and [project_context] hold at most the row [id = 1], so it throws
    exactly when the table is empty. *)
Definition one {A} (rows : option A) : result A :=
  match rows with
  | Some row => Ok row
  | None => Throw "Expected exactly one result from SQL query, but got no results."
  end.

(** [ensureSession()].  The row that [one()] returns is an object and
    so passes the test [if (existing)]; the statements after that test,
    which would insert a session, are never reached: on an empty table
    the call has thrown before.  The reading [e] of the environment is
    therefore not used. *)
Definition ensureSession (e : Env) (a : Agent) : result (SessionInfo * Agent) :=
  _ ← exec (sql a);
  existing ← one (session_info (sql a));
  let s := {| sessionId := session_id existing;
              createdAt := created_at existing;
              lastActivityAt := last_activity_at existing;
              messageCount := message_count existing;
              isActive := is_active existing =? 1 |} in
  Ok (s, {| sql := sql a; sessionCache := Some s |}).

(** The row and the cache after
    [UPDATE session_info SET last_activity_at = ? WHERE id = 1]. *)
Definition touch (now : string) (a : Agent) : Agent :=
  let upd (r : SessionRow) :=
    {| session_id := session_id r; created_at := created_at r;
       last_activity_at := now; message_count := message_count r;
       is_active := is_active r |} in
  let cached (s : SessionInfo) :=
    {| sessionId := sessionId s; createdAt := createdAt s;
       lastActivityAt := now; messageCount := messageCount s;
       isActive := isActive s |} in
  {| sql := with_session (sql a) (upd <$> session_info (sql a));
     sessionCache := cached <$> sessionCache a |}.

Definition updateSessionActivity (e : Env) (a : Agent) : result Agent :=
  let now := getCurrentTimestamp e in
  _ ← exec (sql a);
  Ok (touch now a).

(** ... and after [SET message_count = message_count + 1]. *)
Definition bump (a : Agent) : Agent :=
  let upd (r : SessionRow) :=
    {| session_id := session_id r; created_at := created_at r;
       last_activity_at := last_activity_at r;
       message_count := message_count r + 1;
       is_active := is_active r |} in
  let cached (s : SessionInfo) :=
    {| sessionId := sessionId s; createdAt := createdAt s;
       lastActivityAt := lastActivityAt s;
       messageCount := messageCount s + 1;
       isActive := isActive s |} in
  {| sql := with_session (sql a) (upd <$> session_info (sql a));
     sessionCache := cached <$> sessionCache a |}.

Definition incrementMessageCount (a : Agent) : result Agent :=
  _ ← exec (sql a);
  Ok (bump a).

(** The constructor: the tables are created if missing, then
    [ensureSession] runs, so that building the object fails on a
    storage without a session row.  The cache starts as [null]. *)
Definition construct (e : Env) (db : Db) : result Agent :=
  snd <$> ensureSession e {| sql := db; sessionCache := None |}.

(** *** Messages *)

Definition addMessage (e : Env) (r : Role) (c : string)
    (md : option MessageMetadata) (a : Agent)
    : result (ConversationMessage * Agent) :=
  let mid := generateId e in
  let ts := getCurrentTimestamp e in
  let metadataJson := JSON_stringify <$> md in
  try_catch
    (_ ← exec (sql a);
     (* INSERT: [id] is the primary key *)
     if decide (mid ∈ row_id <$> messages (sql a))
     then Throw "UNIQUE constraint failed: messages.id"
     else
       let row := {| row_id := mid; row_role := r; row_content := c;
                     row_timestamp := ts; row_metadata := metadataJson |} in
       let a1 := {| sql := with_messages (sql a) (messages (sql a) ++ [row])%list;
                    sessionCache := sessionCache a |} in
       a2 ← incrementMessageCount a1;
       a3 ← updateSessionActivity e a2;
       Ok ({| id := mid; role := r; content := c; timestamp := ts;
              metadata := md |}, a3))
    (fun msg => Throw ("Failed to add message: " +:+ msg)).

#[global] Instance Role_eq_dec : EqDecision Role.
Proof. solve_decision. Defined.

(** A non-empty string is truthy. *)
Definition str_truthy (s : string) : bool := negb (String.eqb s "").

(** The WHERE clause built from the options; [timestamp] is TEXT and
    compares bytewise. *)
Definition row_matches (o : GetHistoryOptions) (r : MessageRow) : bool :=
  match opt_role o with
  | Some ro => bool_decide (row_role r = ro)
  | None => true
  end
  && match opt_after o with
     | Some t => if str_truthy t then String.ltb t (row_timestamp r) else true
     | None => true
     end
  && match opt_before o with
     | Some t => if str_truthy t then String.ltb (row_timestamp r) t else true
     | None => true
     end.

(** [x] may come before [y] under [ORDER BY timestamp DESC]: the
    column is TEXT, compared byte by byte, which on the fixed-width
    strings of [toISOString] is the order of the instants. *)
Definition ts_desc (x y : MessageRow) : Prop :=
  String.leb (row_timestamp y) (row_timestamp x) = true.

#[global] Instance ts_desc_dec : RelDecision ts_desc.
Proof. intros x y. unfold ts_desc. apply _. Defined.

(** [ORDER BY timestamp DESC].  SQLite leaves the order of rows with
    equal timestamps open; the facts below rest only on the result
    being a descending permutation of the rows. *)
Definition order_by_timestamp_desc (rows : list MessageRow) : list MessageRow :=
  merge_sort ts_desc rows.

(** [LIMIT ?], appended when [options.limit && options.limit > 0]. *)
Definition apply_limit (o : GetHistoryOptions) (rows : list MessageRow)
    : list MessageRow :=
  match opt_limit o with
  | Some n => if 0 <? n then take (Z.to_nat n) rows else rows
  | None => rows
  end.

Definition select_messages (o : GetHistoryOptions) (db : Db) : list MessageRow :=
  apply_limit o
    (order_by_timestamp_desc
       (filter (fun r => row_matches o r = true) (messages db))).

(** [row.col ? JSON.parse(row.col) : undefined]. *)
Definition parse_cell {A} (c : option (json_text A)) : result (option A) :=
  match c with
  | Some t => if cell_truthy c then Some <$> JSON_parse t else Ok None
  | None => Ok None
  end.

Definition row_to_message (r : MessageRow) : result ConversationMessage :=
  md ← parse_cell (row_metadata r);
  Ok {| id := row_id r; role := row_role r; content := row_content r;
        timestamp := row_timestamp r; metadata := md |}.

Definition getConversationHistory (e : Env) (o : GetHistoryOptions) (a : Agent)
    : result (list ConversationMessage * Agent) :=
  try_catch
    (_ ← exec (sql a);
     let rows := select_messages o (sql a) in
     msgs ← mapM row_to_message (reverse rows);
     a1 ← updateSessionActivity e a;
     Ok (msgs, a1))
    (fun msg => Throw ("Failed to get conversation history: " +:+ msg)).

Definition getMessageCount (a : Agent) : result Z :=
  _ ← exec (sql a);
  Ok (Z.of_nat (length (messages (sql a)))).

Definition deleteMessage (messageId : string) (a : Agent)
    : result (bool * Agent) :=
  try_catch
    (_ ← exec (sql a);
     Ok (true,
         {| sql := with_messages (sql a)
                     (filter (fun r => row_id r <> messageId) (messages (sql a)));
            sessionCache := sessionCache a |}))
    (fun _ => Ok (false, a)).

(** *** Project context *)

Definition of_cell (c : option string) : field string :=
  match c with
  | Some s => Val s
  | None => Null
  end.

Definition parse_field {A} (c : option (json_text A)) : result (field A) :=
  o ← parse_cell c;
  Ok (match o with Some v => Val v | None => Undefined end).

(** [getProjectContext()].  The whole body sits in [try]: when there
    is no row [one()] throws and the [catch] returns [{}], as it does
    when the storage refuses the query or a cell does not parse.  A row
    that [one()] returns is an object, so the test [if (!row)] is never
    taken. *)
Definition getProjectContext (a : Agent) : result ProjectContext :=
  try_catch
    (_ ← exec (sql a);
     row ← one (project_context (sql a));
     el ← parse_field (error_logs row);
     ri ← parse_field (resolved_issues row);
     cs ← parse_field (cloudflare_services row);
     Ok {| workerCode := of_cell (worker_code row);
           errorLogs := el;
           resolvedIssues := ri;
           cloudflareServices := cs;
           projectName := of_cell (project_name row);
           lastUpdated := of_cell (last_updated row) |})
    (fun _ => Ok empty_context).

#[global] Instance CloudflareService_eq_dec : EqDecision CloudflareService.
Proof. solve_decision. Defined.

(** The object [merged] of [updateProjectContext]: the spread of both
    objects with a fresh [lastUpdated], then the three array fields
    rebuilt where both sides hold an array. *)
Definition merge (existing context : ProjectContext) (now : string)
    : ProjectContext :=
  {| workerCode := spread (workerCode existing) (workerCode context);
     errorLogs :=
       match errorLogs context, errorLogs existing with
       | Val c, Val x => Val (x ++ c)%list
       | _, _ => spread (errorLogs existing) (errorLogs context)
       end;
     resolvedIssues :=
       match resolvedIssues context, resolvedIssues existing with
       | Val c, Val x => Val (x ++ c)%list
       | _, _ => spread (resolvedIssues existing) (resolvedIssues context)
       end;
     cloudflareServices :=
       match cloudflareServices context, cloudflareServices existing with
       | Val c, Val x => Val (set_elements (x ++ c)%list)
       | _, _ => spread (cloudflareServices existing) (cloudflareServices context)
       end;
     projectName := spread (projectName existing) (projectName context);
     lastUpdated := Val now |}.

(** [v ? JSON.stringify(v) : null]; an array is truthy. *)
Definition stringify_cell {A} (x : field A) : option (json_text A) :=
  JSON_stringify <$> nullish_to_null x.

Definition context_row (merged : ProjectContext) : ContextRow :=
  {| worker_code := nullish_to_null (workerCode merged);
     error_logs := stringify_cell (errorLogs merged);
     resolved_issues := stringify_cell (resolvedIssues merged);
     cloudflare_services := stringify_cell (cloudflareServices merged);
     project_name := nullish_to_null (projectName merged);
     last_updated := nullish_to_null (lastUpdated merged) |}.

Definition updateProjectContext (e : Env) (context : ProjectContext) (a : Agent)
    : result (StateOperationResult * Agent) :=
  try_catch
    (existing ← getProjectContext a;
     let merged := merge existing context (getCurrentTimestamp e) in
     _ ← exec (sql a);
     let a1 := {| sql := with_context (sql a) (Some (context_row merged));
                  sessionCache := sessionCache a |} in
     a2 ← updateSessionActivity e a1;
     Ok ({| success := true; error := None; data := Some merged |}, a2))
    (fun msg =>
       Ok ({| success := false;
              error := Some ("Failed to update project context: " +:+ msg);
              data := None |}, a)).

Definition addResolvedIssue (e : Env) (i s : string)
    (codes files : option (list string)) (a : Agent) :=
  updateProjectContext e
    {| workerCode := Absent; errorLogs := Absent;
       resolvedIssues :=
         Val [ {| issue_timestamp := getCurrentTimestamp e; issue := i;
                  solution := s; errorCodes := codes;
                  affectedFiles := files |} ];
       cloudflareServices := Absent; projectName := Absent;
       lastUpdated := Absent |} a.

Definition addErrorLogs (e : Env) (logs : list string) (a : Agent) :=
  updateProjectContext e
    {| workerCode := Absent; errorLogs := Val logs; resolvedIssues := Absent;
       cloudflareServices := Absent; projectName := Absent;
       lastUpdated := Absent |} a.

(** [{ workerCode: code, projectName }]: the key [projectName] is
    always there, holding [undefined] when the argument is omitted. *)
Definition setWorkerCode (e : Env) (code : string) (name : option string)
    (a : Agent) :=
  updateProjectContext e
    {| workerCode := Val code; errorLogs := Absent; resolvedIssues := Absent;
       cloudflareServices := Absent;
       projectName := match name with Some n => Val n | None => Undefined end;
       lastUpdated := Absent |} a.

(** *** Session *)

Definition getSessionInfo (e : Env) (a : Agent) : result (SessionInfo * Agent) :=
  ensureSession e a.

(** [clearSession()].  The three deletes are separate statements and
    what has been deleted stays deleted when a later statement throws:
    the [catch] only builds the result. *)
Definition clearSession (e : Env) (a : Agent)
    : result (StateOperationResult * Agent) :=
  let failed (msg : string) (now_at : Agent) :=
    Ok ({| success := false;
           error := Some ("Failed to clear session: " +:+ msg);
           data := None |}, now_at) in
  match exec (sql a) with
  | Throw msg => failed msg a
  | Ok _ =>
    let db1 := with_messages (sql a) [] in
    match exec db1 with
    | Throw msg => failed msg {| sql := db1; sessionCache := sessionCache a |}
    | Ok _ =>
      let db2 := with_context db1 None in
      match exec db2 with
      | Throw msg => failed msg {| sql := db2; sessionCache := sessionCache a |}
      | Ok _ =>
        let a1 := {| sql := with_session db2 None; sessionCache := None |} in
        match ensureSession e a1 with
        | Throw msg => failed msg a1
        | Ok sa =>
          Ok ({| success := true; error := None; data := None |}, snd sa)
        end
      end
    end
  end.

Definition deactivateSession (a : Agent) : result Agent :=
  _ ← exec (sql a);
  let upd (r : SessionRow) :=
    {| session_id := session_id r; created_at := created_at r;
       last_activity_at := last_activity_at r;
       message_count := message_count r; is_active := 0 |} in
  let cached (s : SessionInfo) :=
    {| sessionId := sessionId s; createdAt := createdAt s;
       lastActivityAt := lastActivityAt s;
       messageCount := messageCount s; isActive := false |} in
  Ok {| sql := with_session (sql a) (upd <$> session_info (sql a));
        sessionCache := cached <$> sessionCache a |}.

(** *** Vocabulary of the statements *)

(** Non-decreasing timestamps, message by message.  The timestamps are
    the strings [toISOString] wrote, compared as SQLite compares TEXT. *)
Definition ts_asc (x y : ConversationMessage) : Prop :=
  String.leb (timestamp x) (timestamp y) = true.

(** The [metadata] cell of the row can be read back. *)
Definition metadata_readable (r : MessageRow) : bool :=
  match row_metadata r with
  | Some (OtherText raw) => String.eqb raw ""
  | _ => true
  end.

(** The storage answers and every stored [metadata] parses. *)
Definition readable (a : Agent) : bool :=
  negb (broken (sql a)) && forallb metadata_readable (messages (sql a)).

(** The rows a query with options [o] ranges over, in storage order. *)
Definition matching (o : GetHistoryOptions) (db : Db) : list MessageRow :=
  filter (fun r => row_matches o r = true) (messages db).

Definition no_options : GetHistoryOptions :=
  {| opt_limit := None; opt_role := None; opt_after := None;
     opt_before := None |}.

(** The cached and the stored session are the same record. *)
Definition session_of_row (r : SessionRow) : SessionInfo :=
  {| sessionId := session_id r; createdAt := created_at r;
     lastActivityAt := last_activity_at r;
     messageCount := message_count r;
     isActive := is_active r =? 1 |}.

(** A JSON cell that [JSON.parse] accepts, or a falsy one. *)
Definition cell_readable {A} (c : option (json_text A)) : bool :=
  match c with
  | Some (OtherText raw) => String.eqb raw ""
  | _ => true
  end.

(** No context can be read: the storage refuses the query, there is
    no row, or one of its JSON cells does not parse. *)
Definition context_unavailable (a : Agent) : bool :=
  broken (sql a)
  || match project_context (sql a) with
     | None => true
     | Some row =>
       negb (cell_readable (error_logs row)
             && cell_readable (resolved_issues row)
             && cell_readable (cloudflare_services row))
     end.

(** A key that is absent or holds a value, as opposed to one that
    holds [undefined] or [null]. *)
Definition supplied {A} (x : field A) : bool :=
  match x with
  | Absent | Val _ => true
  | Undefined | Null => false
  end.

(** What [getProjectContext] reads back from the row written for
    [merged]. *)
Definition read_back (merged : ProjectContext) : ProjectContext :=
  let cell {A} (x : field A) : field A :=
    match x with Val v => Val v | _ => Undefined end in
  {| workerCode := of_cell (nullish_to_null (workerCode merged));
     errorLogs := cell (errorLogs merged);
     resolvedIssues := cell (resolvedIssues merged);
     cloudflareServices := cell (cloudflareServices merged);
     projectName := of_cell (nullish_to_null (projectName merged));
     lastUpdated := of_cell (nullish_to_null (lastUpdated merged)) |}.

(** A store in good order: the storage answers, [id] is a key of
    [messages] (the table's primary key), and every [metadata] cell
    parses.  Every method keeps a store in good order. *)
Record wf (a : Agent) : Prop := {
  wf_storage : broken (sql a) = false;
  wf_ids : NoDup (row_id <$> messages (sql a));
  wf_metadata : forallb metadata_readable (messages (sql a)) = true
}.

(** What [clearSession] leaves on a storage that answers: the three
    tables are emptied, the cache is dropped, and then [ensureSession]
    throws on the empty [session_info], which the [catch] reports. *)
Definition emptied (a : Agent) : Agent :=
  {| sql := with_session (with_context (with_messages (sql a) []) None) None;
     sessionCache := None |}.

(** *** The whole state *)

Record DevCopilotState := {
  state_session : SessionInfo;
  state_messages : list ConversationMessage;
  state_projectContext : ProjectContext
}.

(** [getFullState()].  [ensureSession] hands out the cache object
    itself, and the [updateSessionActivity] of the history read that
    follows writes [lastActivityAt] into that same object: the session
    of the snapshot is the cache as it stands at the end. *)
Definition getFullState (e : Env) (a : Agent)
    : result (DevCopilotState * Agent) :=
  sa ← getSessionInfo e a;
  ma ← getConversationHistory e no_options (snd sa);
  projectContext ← getProjectContext (snd ma);
  Ok ({| state_session := default (fst sa) (sessionCache (snd ma));
         state_messages := fst ma;
         state_projectContext := projectContext |}, snd ma).

(** *** The public methods as one alphabet *)

Inductive Call :=
| CallAddMessage (r : Role) (c : string) (md : option MessageMetadata)
| CallGetConversationHistory (o : GetHistoryOptions)
| CallGetMessageCount
| CallDeleteMessage (messageId : string)
| CallUpdateProjectContext (context : ProjectContext)
| CallGetProjectContext
| CallAddResolvedIssue (i s : string) (codes files : option (list string))
| CallAddErrorLogs (logs : list string)
| CallSetWorkerCode (code : string) (name : option string)
| CallGetSessionInfo
| CallClearSession
| CallDeactivateSession
| CallGetFullState.

(** The state a call leaves when it returns. *)
Definition perform (e : Env) (c : Call) (a : Agent) : result Agent :=
  match c with
  | CallAddMessage r c md => snd <$> addMessage e r c md a
  | CallGetConversationHistory o => snd <$> getConversationHistory e o a
  | CallGetMessageCount => (fun _ => a) <$> getMessageCount a
  | CallDeleteMessage mid => snd <$> deleteMessage mid a
  | CallUpdateProjectContext P => snd <$> updateProjectContext e P a
  | CallGetProjectContext => (fun _ => a) <$> getProjectContext a
  | CallAddResolvedIssue i s codes files =>
      snd <$> addResolvedIssue e i s codes files a
  | CallAddErrorLogs logs => snd <$> addErrorLogs e logs a
  | CallSetWorkerCode code name => snd <$> setWorkerCode e code name a
  | CallGetSessionInfo => snd <$> getSessionInfo e a
  | CallClearSession => snd <$> clearSession e a
  | CallDeactivateSession => deactivateSession a
  | CallGetFullState => snd <$> getFullState e a
  end.

Definition writes_messages (c : Call) : bool :=
  match c with
  | CallAddMessage _ _ _ | CallDeleteMessage _ | CallClearSession => true
  | _ => false
  end.

Definition writes_context (c : Call) : bool :=
  match c with
  | CallUpdateProjectContext _ | CallAddResolvedIssue _ _ _ _
  | CallAddErrorLogs _ | CallSetWorkerCode _ _ | CallClearSession => true
  | _ => false
  end.

Definition is_clear (c : Call) : bool :=
  match c with
  | CallClearSession => true
  | _ => false
  end.



End Agent.

(** ** Concrete runs *)

Module Scenario.
Import Agent.

Definition env0 : Env :=
  {| date_now := 1767225600000; random36 := "k3x9q2m1z";
     iso_now := "2026-01-01T00:00:00.000Z" |}.

Definition env1 : Env :=
  {| date_now := 1767225601500; random36 := "p0a7c4e8d";
     iso_now := "2026-01-01T00:00:01.500Z" |}.

Definition env2 : Env :=
  {| date_now := 1767225603000; random36 := "w5t1b6n3y";
     iso_now := "2026-01-01T00:00:03.000Z" |}.

Definition session0 : SessionInfo :=
  {| sessionId := "1767225600000-k3x9q2m1z";
     createdAt := "2026-01-01T00:00:00.000Z";
     lastActivityAt := "2026-01-01T00:00:00.000Z";
     messageCount := 0; isActive := true |}.

(** An object over a storage that holds a session row and nothing
    else; the constructor gives exactly this object on that storage. *)
Definition agent0 : Agent :=
  {| sql := {| messages := []; project_context := None;
               session_info :=
                 Some {| session_id := "1767225600000-k3x9q2m1z";
                         created_at := "2026-01-01T00:00:00.000Z";
                         last_activity_at := "2026-01-01T00:00:00.000Z";
                         message_count := 0; is_active := 1 |};
               broken := false |};
     sessionCache := Some session0 |}.

(** ... and after [addMessage("user", "hello")] at [env1]. *)
Definition hello_row : MessageRow :=
  {| row_id := "1767225601500-p0a7c4e8d"; row_role := user;
     row_content := "hello";
     row_timestamp := "2026-01-01T00:00:01.500Z";
     row_metadata := None |}.

Definition session1 : SessionRow :=
  {| session_id := "1767225600000-k3x9q2m1z";
     created_at := "2026-01-01T00:00:00.000Z";
     last_activity_at := "2026-01-01T00:00:01.500Z";
     message_count := 1; is_active := 1 |}.

Definition agent1 : Agent :=
  {| sql := {| messages := [hello_row]; project_context := None;
               session_info := Some session1; broken := false |};
     sessionCache := Some (session_of_row session1) |}.

(** Three rows stored out of chronological order. *)
Definition row_at (i ts : string) : MessageRow :=
  {| row_id := i; row_role := user; row_content := "m";
     row_timestamp := ts; row_metadata := None |}.

Definition message_at (i ts : string) : ConversationMessage :=
  {| id := i; role := user; content := "m"; timestamp := ts;
     metadata := None |}.

Definition shuffled : Agent :=
  {| sql := with_messages (sql agent0)
              [ row_at "b" "2026-01-02T00:00:00.000Z";
                row_at "c" "2026-01-03T00:00:00.000Z";
                row_at "a" "2026-01-01T00:00:00.000Z" ];
     sessionCache := sessionCache agent0 |}.

Definition last_two : GetHistoryOptions :=
  {| opt_limit := Some 2; opt_role := None; opt_after := None;
     opt_before := None |}.

(** Partial updates. *)
Definition only_errorLogs (x : field (list string)) : ProjectContext :=
  {| workerCode := Absent; errorLogs := x; resolvedIssues := Absent;
     cloudflareServices := Absent; projectName := Absent;
     lastUpdated := Absent |}.

Definition only_services (x : field (list CloudflareService)) : ProjectContext :=
  {| workerCode := Absent; errorLogs := Absent; resolvedIssues := Absent;
     cloudflareServices := x; projectName := Absent;
     lastUpdated := Absent |}.

(** What the context row holds, if there is one. *)
Definition stored_errorLogs (a : Agent) : option (json_text (list string)) :=
  project_context (sql a) ≫= error_logs.

Definition stored_services (a : Agent)
    : option (json_text (list CloudflareService)) :=
  project_context (sql a) ≫= cloudflare_services.

(** [addErrorLogs(["TypeError: x is not a function"])] on [agent0],
    then [updateProjectContext({ errorLogs: undefined })]:
    both success flags and the [error_logs] cell after each call. *)
Definition undefined_errorLogs_run :=
  r1 ← addErrorLogs env1 ["TypeError: x is not a function"] agent0;
  r2 ← updateProjectContext env2 (only_errorLogs Undefined) (snd r1);
  Ok (success (fst r1), stored_errorLogs (snd r1),
      success (fst r2), stored_errorLogs (snd r2)).

(** [updateProjectContext({ cloudflareServices: ["KV", "KV"] })] on
    [agent0], which has no context row: the success flag, the array returned and the
    [cloudflare_services] cell. *)
Definition repeated_service_run :=
  r ← updateProjectContext env1 (only_services (Val [KV; KV])) agent0;
  Ok (success (fst r), cloudflareServices <$> data (fst r),
      stored_services (snd r)).

(** The object of [agent0] over a context row whose [error_logs] cell
    is not JSON, next to worker code and a project name that are. *)
Definition corrupted : Agent :=
  {| sql := with_context (sql agent0)
              (Some {| worker_code := Some "export default {}";
                       error_logs := Some (OtherText "[oops");
                       resolved_issues := None;
                       cloudflare_services := Some (JsonOf [KV]);
                       project_name := Some "edge-api";
                       last_updated := Some "2026-01-01T00:00:00.000Z" |});
     sessionCache := sessionCache agent0 |}.

Definition only_projectName (x : field string) : ProjectContext :=
  {| workerCode := Absent; errorLogs := Absent; resolvedIssues := Absent;
     cloudflareServices := Absent; projectName := x;
     lastUpdated := Absent |}.

End Scenario.

(** ** The turn loop *)

Module Orchestrator.








End Orchestrator.

(** ** The chat agent of server.ts *)

Module Server.

(** A part of a [UIMessage]: text, or a part of another type (a tool
    call, a step marker, ...), of which only the type matters here. *)
Inductive Part :=
| TextPart (text : string)
| OtherPart (type : string).

Definition part_text (p : Part) : option string :=
  match p with
  | TextPart t => Some t
  | OtherPart _ => None
  end.

(** [Array.prototype.join("\n")]. *)
Definition join_lines (l : list string) : string :=
  String.concat (String "010"%char EmptyString) l.

(** [extractTextContent(message)], on [message.parts] ([None] when the
    message has none). *)
Definition extractTextContent (parts : option (list Part)) : string :=
  match parts with
  | None => ""
  | Some ps => join_lines (omap part_text ps)
  end.

End Server.

(** * Properties *)

(** ** Byte order on timestamps *)

Section StringOrder.

Lemma leb_iff (s t : string) :
  String.leb s t = true <-> s = t \/ String_as_OT.lt s t.
Proof.
  unfold String.leb.
  destruct (String.compare s t) eqn:Hc.
  - apply String_as_OT.cmp_eq in Hc. tauto.
  - apply String_as_OT.cmp_lt in Hc. tauto.
  - split; [discriminate|]. intros [->|Hlt].
    + assert (String.compare t t = Eq) as Hr by (by apply String_as_OT.cmp_eq).
      congruence.
    + apply String_as_OT.cmp_lt in Hlt. unfold String_as_OT.cmp in Hlt. congruence.
Qed.

Lemma leb_refl (s : string) : String.leb s s = true.
Proof. apply leb_iff. by left. Qed.

Lemma leb_trans (s t u : string) :
  String.leb s t = true -> String.leb t u = true -> String.leb s u = true.
Proof.
  rewrite !leb_iff. intros [->|H1] [->|H2]; auto.
  right. eapply String_as_OT.lt_trans; eauto.
Qed.

Lemma ltb_leb (s t : string) : String.ltb s t = true -> String.leb s t = true.
Proof.
  unfold String.ltb, String.leb. by destruct (String.compare s t).
Qed.

End StringOrder.

(** ** Reading the history *)

Section History.
Import Agent.

#[local] Instance ts_desc_total : Total ts_desc.
Proof.
  intros x y. unfold ts_desc.
  destruct (String.leb_total (row_timestamp x) (row_timestamp y)); auto.
Qed.

#[local] Instance ts_desc_trans : Transitive ts_desc.
Proof. intros x y z. unfold ts_desc. intros. by eapply leb_trans. Qed.

Lemma order_by_sorted rows : StronglySorted ts_desc (order_by_timestamp_desc rows).
Proof. apply StronglySorted_merge_sort; apply _. Qed.

Lemma order_by_perm rows : order_by_timestamp_desc rows ≡ₚ rows.
Proof. apply merge_sort_Permutation. Qed.

Lemma StronglySorted_take' {A} (R : relation A) n (l : list A) :
  StronglySorted R l -> StronglySorted R (take n l).
Proof.
  intros H. rewrite <- (take_drop n l) in H.
  by apply StronglySorted_app in H as (_ & ? & _).
Qed.

Lemma apply_limit_sorted o rows :
  StronglySorted ts_desc rows -> StronglySorted ts_desc (apply_limit o rows).
Proof.
  intros H. unfold apply_limit. destruct (opt_limit o) as [n|]; [|done].
  destruct (0 <? n); [by apply StronglySorted_take'|done].
Qed.

Lemma select_messages_sorted o db : StronglySorted ts_desc (select_messages o db).
Proof. apply apply_limit_sorted, order_by_sorted. Qed.

Lemma StronglySorted_reverse' {A} (R : relation A) (l : list A) :
  StronglySorted R l -> StronglySorted (flip R) (reverse l).
Proof.
  induction 1 as [|x l Hl IH Hx]; [constructor|].
  rewrite reverse_cons. apply StronglySorted_app. split_and!.
  - intros y z Hy Hz. apply list_elem_of_singleton in Hz as ->.
    rewrite elem_of_reverse in Hy. rewrite Forall_forall in Hx.
    unfold flip. by apply Hx.
  - done.
  - repeat constructor.
Qed.

Lemma mapM_row_to_message rows ms :
  mapM row_to_message rows = Ok ms ->
  Forall2 (fun r m => row_to_message r = Ok m) rows ms.
Proof.
  revert ms. induction rows as [|r rows IH]; intros ms; simpl.
  - intros [= <-]. constructor.
  - destruct (row_to_message r) as [m|] eqn:Hm; [|discriminate]. simpl.
    destruct (mapM row_to_message rows) as [ms'|] eqn:Hms; [|discriminate].
    simpl. intros [= <-]. constructor; auto.
Qed.

Lemma row_to_message_fields r m :
  row_to_message r = Ok m ->
  id m = row_id r /\ role m = row_role r /\ content m = row_content r /\
  timestamp m = row_timestamp r.
Proof.
  unfold row_to_message. destruct (parse_cell (row_metadata r)); simpl; [|discriminate].
  by intros [= <-].
Qed.

Lemma Forall2_sorted_asc rows ms :
  Forall2 (fun r m => row_to_message r = Ok m) rows ms ->
  StronglySorted (flip ts_desc) rows -> StronglySorted ts_asc ms.
Proof.
  induction 1 as [|r m rows ms Hrm Hall IH]; intros Hs; [constructor|].
  apply StronglySorted_inv in Hs as [Hs Hr]. constructor; [auto|].
  apply row_to_message_fields in Hrm as (_ & _ & _ & Hts).
  clear IH Hs. induction Hall as [|r' m' rows ms Hrm' Hall IH]; [constructor|].
  apply Forall_cons in Hr as [Hr' Hr]. constructor; [|auto].
  apply row_to_message_fields in Hrm' as (_ & _ & _ & Hts').
  unfold ts_asc. rewrite Hts, Hts'. exact Hr'.
Qed.

(** The messages returned are those of the selected rows, oldest
    first. *)
Lemma getConversationHistory_Ok e o a ms a' :
  getConversationHistory e o a = Ok (ms, a') ->
  Forall2 (fun r m => row_to_message r = Ok m) (reverse (select_messages o (sql a))) ms.
Proof.
  unfold getConversationHistory, try_catch.
  destruct (exec (sql a)); simpl; [|discriminate].
  destruct (mapM row_to_message _) as [ms'|] eqn:Hms; simpl; [|discriminate].
  destruct (updateSessionActivity e a); simpl; [|discriminate].
  intros [= <- <-]. by apply mapM_row_to_message.
Qed.

Lemma mapM_row_to_message_readable rows :
  forallb metadata_readable rows = true ->
  exists ms, mapM row_to_message rows = Ok ms.
Proof.
  induction rows as [|r rows IH]; simpl; [by eexists|].
  intros [Hr Hrows]%andb_prop. destruct (IH Hrows) as [ms Hms].
  rewrite Hms. unfold row_to_message, parse_cell, metadata_readable in *.
  destruct (row_metadata r) as [[v|raw]|]; simpl; eauto.
  apply String.eqb_eq in Hr as ->. simpl. eauto.
Qed.

Lemma mapM_row_to_message_Throw rows msg :
  mapM row_to_message rows = Throw msg ->
  forallb metadata_readable rows = false.
Proof.
  intros H. destruct (forallb metadata_readable rows) eqn:Hf; [|done].
  destruct (mapM_row_to_message_readable _ Hf) as [ms Hms]. congruence.
Qed.

Lemma forallb_perm {A} (f : A -> bool) (l k : list A) :
  l ≡ₚ k -> forallb f l = forallb f k.
Proof.
  induction 1; simpl; try congruence.
  by rewrite !andb_assoc, (andb_comm (f y)).
Qed.

Lemma forallb_sublist {A} (f : A -> bool) (l k : list A) :
  (forall x, x ∈ l -> x ∈ k) -> forallb f k = true -> forallb f l = true.
Proof.
  intros Hsub Hk. apply forallb_forall. intros x Hx%list_elem_of_In.
  eapply forallb_forall in Hk; [done|]. by apply list_elem_of_In, Hsub.
Qed.

Lemma select_messages_subset o db r :
  r ∈ reverse (select_messages o db) -> r ∈ messages db.
Proof.
  rewrite elem_of_reverse. unfold select_messages, apply_limit. intros H.
  assert (r ∈ order_by_timestamp_desc (matching o db)) as H'.
  { destruct (opt_limit o) as [n|]; [|done].
    destruct (0 <? n); [|done]. by eapply subseteq_take. }
  rewrite order_by_perm in H'. unfold matching in H'.
  by apply list_elem_of_filter in H' as [_ ?].
Qed.

Lemma getConversationHistory_returns e o a :
  readable a = true ->
  exists ms a', getConversationHistory e o a = Ok (ms, a').
Proof.
  intros [Hb Hf]%andb_prop. apply negb_true_iff in Hb.
  destruct (mapM_row_to_message_readable (reverse (select_messages o (sql a))))
    as [ms Hms].
  { eapply forallb_sublist; [apply select_messages_subset|done]. }
  unfold getConversationHistory, try_catch, updateSessionActivity, exec.
  rewrite Hb, Hms. simpl. eauto.
Qed.

(** C3. Whatever rows are stored, in whatever order, and whatever the
    options, [getConversationHistory] returns its messages in
    non-decreasing timestamp order; it throws only when the storage
    refuses the query or a stored [metadata] does not parse. *)
Theorem getConversationHistory_ascending e o a :
  match getConversationHistory e o a with
  | Ok (ms, _) => StronglySorted ts_asc ms
  | Throw _ => readable a = false
  end.
Proof.
  destruct (getConversationHistory e o a) as [[ms a']|msg] eqn:H.
  - apply getConversationHistory_Ok in H.
    eapply Forall2_sorted_asc; [exact H|].
    apply StronglySorted_reverse', select_messages_sorted.
  - unfold getConversationHistory, try_catch, readable, updateSessionActivity, exec in *.
    destruct (broken (sql a)) eqn:Hb; simpl in *; [done|].
    destruct (mapM row_to_message _) as [ms|msg'] eqn:Hms; simpl in H; [discriminate|].
    apply mapM_row_to_message_Throw in Hms.
    destruct (forallb metadata_readable (messages (sql a))) eqn:Hf; [|done].
    rewrite (forallb_sublist _ _ _ (select_messages_subset o (sql a)) Hf) in Hms.
    discriminate.
Qed.



(** Three rows stored out of order, the last two asked for. *)
Example history_last_two :
  fst <$> getConversationHistory Scenario.env1 Scenario.last_two Scenario.shuffled
  = Ok [ Scenario.message_at "b" "2026-01-02T00:00:00.000Z";
         Scenario.message_at "c" "2026-01-03T00:00:00.000Z" ].
Proof. vm_compute. reflexivity. Qed.


End History.

(** ** The store and its session *)

Section Store.
Import Agent.

Lemma exec_Ok db : broken db = false -> exec db = Ok tt.
Proof. unfold exec. by intros ->. Qed.

(** Unfold an operation down to its statements. *)
Ltac open_op :=
  unfold getSessionInfo, construct, clearSession, deactivateSession,
    updateProjectContext, getProjectContext, deleteMessage,
    getConversationHistory, addMessage, incrementMessageCount,
    updateSessionActivity, ensureSession, one, try_catch, exec in *.

(** *** Stores in good order *)

Lemma wf_same_messages a a' :
  broken (sql a') = broken (sql a) ->
  messages (sql a') = messages (sql a) -> wf a -> wf a'.
Proof. intros Hb Hm [? ? ?]. split; by rewrite ?Hb, ?Hm. Qed.

Lemma ensureSession_frame e a s a' :
  ensureSession e a = Ok (s, a') ->
  broken (sql a') = broken (sql a) /\ messages (sql a') = messages (sql a) /\
  project_context (sql a') = project_context (sql a).
Proof.
  open_op. destruct (broken (sql a)) eqn:Hb; simpl; [discriminate|].
  destruct (session_info (sql a)); simpl; [|discriminate].
  intros [= <- <-]; by simpl.
Qed.

(** [ensureSession] creates nothing: it returns exactly when the storage
    answers and holds a session row, which it copies into the cache. *)
Lemma ensureSession_Ok e a row :
  broken (sql a) = false -> session_info (sql a) = Some row ->
  ensureSession e a
  = Ok (session_of_row row,
        {| sql := sql a; sessionCache := Some (session_of_row row) |}).
Proof. intros Hb Hrow. open_op. by rewrite Hb, Hrow. Qed.

Lemma ensureSession_no_row e a :
  session_info (sql a) = None -> exists msg, ensureSession e a = Throw msg.
Proof.
  intros Hrow. open_op. rewrite Hrow. destruct (broken (sql a)); simpl; eauto.
Qed.

(** On a storage that holds no session row the constructor throws. *)
Lemma construct_empty_db e : exists msg, construct e empty_db = Throw msg.
Proof. by eexists. Qed.

Lemma filter_ids_NoDup (mid : string) (rows : list MessageRow) :
  NoDup (row_id <$> rows) ->
  NoDup (row_id <$> filter (fun r => row_id r <> mid) rows).
Proof.
  intros H. eapply sublist_NoDup; [exact H|].
  apply fmap_sublist, sublist_filter.
Qed.

Lemma addMessage_frame e r c md a m a' :
  addMessage e r c md a = Ok (m, a') ->
  broken (sql a) = false /\ broken (sql a') = false /\
  (generateId e ∉ row_id <$> messages (sql a)) /\
  messages (sql a')
  = (messages (sql a)
     ++ [ {| row_id := generateId e; row_role := r; row_content := c;
             row_timestamp := getCurrentTimestamp e;
             row_metadata := JSON_stringify <$> md |} ])%list.
Proof.
  open_op. destruct (broken (sql a)) eqn:Hb; simpl; [discriminate|].
  destruct (decide (generateId e ∈ row_id <$> messages (sql a))) as [?|Hnew];
    simpl; [discriminate|].
  rewrite Hb. simpl. rewrite Hb. simpl. by intros [= <- <-].
Qed.

Lemma getProjectContext_total a : exists c, getProjectContext a = Ok c.
Proof.
  unfold getProjectContext, one, try_catch.
  destruct (_ ≫= _); eauto.
Qed.

(** [updateProjectContext] always returns; when the storage answers,
    the row written is the merge of what was read. *)
Lemma updateProjectContext_Ok e P a existing :
  broken (sql a) = false -> getProjectContext a = Ok existing ->
  let merged := merge existing P (getCurrentTimestamp e) in
  updateProjectContext e P a
  = Ok ({| success := true; error := None; data := Some merged |},
        touch (getCurrentTimestamp e)
          {| sql := with_context (sql a) (Some (context_row merged));
             sessionCache := sessionCache a |}).
Proof.
  intros Hb He. unfold updateProjectContext. rewrite He.
  unfold try_catch, updateSessionActivity, exec. simpl. by rewrite Hb.
Qed.

Lemma updateProjectContext_broken e P a :
  broken (sql a) = true ->
  exists r, updateProjectContext e P a = Ok (r, a) /\ success r = false.
Proof.
  intros Hb. destruct (getProjectContext_total a) as [c Hc].
  unfold updateProjectContext. rewrite Hc.
  unfold try_catch, updateSessionActivity, exec. simpl. rewrite Hb. simpl. eauto.
Qed.

Lemma updateProjectContext_frame e P a r a' :
  updateProjectContext e P a = Ok (r, a') ->
  broken (sql a') = broken (sql a) /\ messages (sql a') = messages (sql a).
Proof.
  destruct (broken (sql a)) eqn:Hb.
  - destruct (updateProjectContext_broken e P a Hb) as (r' & -> & _).
    by intros [= <- <-].
  - destruct (getProjectContext_total a) as [c Hc].
    rewrite (updateProjectContext_Ok e P a c Hb Hc). by intros [= <- <-].
Qed.

Lemma clearSession_unbroken e a :
  broken (sql a) = false ->
  exists r, clearSession e a = Ok (r, emptied a) /\ success r = false.
Proof.
  intros Hb. unfold clearSession, ensureSession, one, exec. simpl.
  rewrite Hb. simpl. eauto.
Qed.

Lemma clearSession_broken e a :
  broken (sql a) = true ->
  exists r, clearSession e a = Ok (r, a) /\ success r = false.
Proof.
  intros Hb. unfold clearSession, exec. rewrite Hb. simpl. eauto.
Qed.

(** *** Reading the context *)

Lemma parse_field_unreadable {A} (c : option (json_text A)) :
  cell_readable c = false -> exists msg, parse_field c = Throw msg.
Proof.
  destruct c as [[v|raw]|]; simpl; try discriminate.
  intros Hraw. unfold parse_field, parse_cell. simpl.
  destruct raw; [discriminate|]. simpl. eauto.
Qed.

Lemma parse_field_readable {A} (c : option (json_text A)) :
  cell_readable c = true -> exists f, parse_field c = Ok f.
Proof.
  destruct c as [[v|raw]|]; simpl; eauto.
  intros ->%String.eqb_eq. simpl. eauto.
Qed.

(** C8. [getProjectContext] returns a context in every state of the
    store and never throws; the context is the empty object when there
    is no row, when the storage refuses the query and when the row
    cannot be parsed. *)
Theorem getProjectContext_never_throws a :
  exists c, getProjectContext a = Ok c /\
            if context_unavailable a then c = empty_context else True.
Proof.
  unfold context_unavailable, getProjectContext, one, try_catch, exec.
  destruct (broken (sql a)); simpl; [eauto|].
  destruct (project_context (sql a)) as [row|]; simpl; [|eauto].
  destruct (cell_readable (error_logs row)) eqn:H1; simpl.
  2: { destruct (parse_field_unreadable _ H1) as [m ->]. simpl. eauto. }
  destruct (parse_field_readable _ H1) as [el ->]. simpl.
  destruct (cell_readable (resolved_issues row)) eqn:H2; simpl.
  2: { destruct (parse_field_unreadable _ H2) as [m ->]. simpl. eauto. }
  destruct (parse_field_readable _ H2) as [ri ->]. simpl.
  destruct (cell_readable (cloudflare_services row)) eqn:H3; simpl.
  2: { destruct (parse_field_unreadable _ H3) as [m ->]. simpl. eauto. }
  destruct (parse_field_readable _ H3) as [cs ->]. simpl. eauto.
Qed.

(** *** Clearing the session *)

Lemma select_messages_nil o db : messages db = [] -> select_messages o db = [].
Proof.
  intros Hm. unfold select_messages, apply_limit. rewrite Hm, filter_nil.
  change (order_by_timestamp_desc []) with (@nil MessageRow).
  destruct (opt_limit o) as [n|]; [destruct (0 <? n)|]; by rewrite ?take_nil.
Qed.

(** C2. [clearSession] does not leave a fresh session behind.  On a
    storage that answers it deletes the messages, the context row and
    the session row, then fails in [ensureSession], whose [one()] throws
    on the empty table before the insert is reached, and reports
    [success: false].  Afterwards the history and the context are empty,
    but there is no session: [getSessionInfo] throws instead of
    returning a session with [messageCount = 0] and a new id, and the
    object cannot be built again on that storage. *)
Theorem clearSession_leaves_no_session e a :
  broken (sql a) = false ->
  exists r a',
    clearSession e a = Ok (r, a') /\
    success r = false /\
    messages (sql a') = [] /\
    project_context (sql a') = None /\
    session_info (sql a') = None /\
    sessionCache a' = None /\
    (forall e' o, exists a'', getConversationHistory e' o a' = Ok ([], a'')) /\
    getProjectContext a' = Ok empty_context /\
    (forall e', exists msg, getSessionInfo e' a' = Throw msg) /\
    (forall e', exists msg, construct e' (sql a') = Throw msg).
Proof.
  intros Hb. destruct (clearSession_unbroken e a Hb) as (r & Hr & Hs).
  exists r, (emptied a). split_and!; try done.
  - intros e' o. unfold getConversationHistory.
    rewrite select_messages_nil by done.
    unfold updateSessionActivity, try_catch, exec. simpl. rewrite Hb. simpl.
    by eexists.
  - unfold getProjectContext, one, try_catch, exec. simpl. by rewrite Hb.
  - intros e'. by apply ensureSession_no_row.
  - intros e'. unfold construct.
    destruct (ensureSession_no_row e' {| sql := sql (emptied a); sessionCache := None |})
      as [msg Hmsg]; [done|].
    rewrite Hmsg. by eexists.
Qed.

Lemma clearSession_leaves_no_session_witness :
  exists r a',
    clearSession Scenario.env2 Scenario.agent1 = Ok (r, a') /\
    success r = false /\
    session_info (sql a') = None /\
    exists msg, getSessionInfo Scenario.env2 a' = Throw msg.
Proof.
  destruct (clearSession_leaves_no_session Scenario.env2 Scenario.agent1 eq_refl)
    as (r & a' & Hc & Hs & _ & _ & Hrow & _ & _ & _ & Hget & _).
  exists r, a'. split; [exact Hc|]. split; [exact Hs|]. split; [exact Hrow|].
  exact (Hget Scenario.env2).
Defined.

(** *** Deleting a message *)

Lemma filter_id_absent (mid : string) (rows : list MessageRow) :
  mid ∉ row_id <$> rows -> filter (fun r => row_id r <> mid) rows = rows.
Proof.
  induction rows as [|r rows IH]; [done|]. rewrite fmap_cons, not_elem_of_cons.
  intros [Hne Hrows]. rewrite filter_cons_True by congruence. by rewrite IH.
Qed.

Lemma length_filter_id (mid : string) (rows : list MessageRow) :
  NoDup (row_id <$> rows) ->
  (length rows <= length (filter (fun r => row_id r <> mid) rows) + 1)%nat.
Proof.
  induction rows as [|r rows IH]; simpl; [lia|].
  intros [Hr Hrows]%NoDup_cons. rewrite filter_cons.
  destruct (decide (row_id r <> mid)) as [Hne|Heq]; simpl; [specialize (IH Hrows); lia|].
  apply dec_stable in Heq. subst mid. rewrite filter_id_absent by done. lia.
Qed.

Lemma length_filter_lt (mid : string) (rows : list MessageRow) :
  mid ∈ row_id <$> rows ->
  (length (filter (fun r => row_id r <> mid) rows) < length rows)%nat.
Proof.
  induction rows as [|r rows IH]; simpl; [by intros ?%elem_of_nil|].
  rewrite filter_cons. pose proof (length_filter (fun r => row_id r <> mid) rows).
  destruct (decide (row_id r <> mid)) as [Hne|Heq]; simpl; [|lia].
  intros [?|Hin]%elem_of_cons; [congruence|]. specialize (IH Hin). lia.
Qed.

(** C10. On a store in good order (the storage answers and, as the
    primary key has it, no two rows share an id) [deleteMessage]
    succeeds, removes the rows whose id is the given one, which is at
    most one row, and leaves the session row, the session cache and the
    context as they were: [message_count] is not lowered and
    [last_activity_at] is not refreshed.  So once a stored message is
    deleted from a store whose count was not below the number of rows,
    the count exceeds the number of rows. *)
Theorem deleteMessage_frame mid a :
  wf a ->
  exists a',
    deleteMessage mid a = Ok (true, a') /\
    session_info (sql a') = session_info (sql a) /\
    sessionCache a' = sessionCache a /\
    project_context (sql a') = project_context (sql a) /\
    messages (sql a') = filter (fun r => row_id r <> mid) (messages (sql a)) /\
    (length (messages (sql a)) <= length (messages (sql a')) + 1)%nat /\
    forall row,
      session_info (sql a) = Some row ->
      mid ∈ row_id <$> messages (sql a) ->
      Z.of_nat (length (messages (sql a))) <= message_count row ->
      session_info (sql a') = Some row /\
      Z.of_nat (length (messages (sql a'))) < message_count row.
Proof.
  intros [Hb Hids _]. unfold deleteMessage, try_catch, exec.
  rewrite Hb. simpl. eexists. split; [reflexivity|]. simpl. split_and!; try done.
  - by apply length_filter_id.
  - intros row Hrow Hin Hcount. split; [done|].
    pose proof (length_filter_lt mid _ Hin). lia.
Qed.

Lemma agent1_wf : wf Scenario.agent1.
Proof.
  split; [reflexivity| |reflexivity].
  apply NoDup_singleton.
Defined.

(** Deleting "hello" from the object that holds only it: the count
    stays at one over an empty table. *)
Lemma deleteMessage_frame_witness :
  wf Scenario.agent1 /\
  exists a',
    deleteMessage (row_id Scenario.hello_row) Scenario.agent1 = Ok (true, a') /\
    session_info (sql a') = Some Scenario.session1 /\
    Z.of_nat (length (messages (sql a'))) < message_count Scenario.session1.
Proof.
  split; [exact agent1_wf|].
  destruct (deleteMessage_frame (row_id Scenario.hello_row) Scenario.agent1
              agent1_wf)
    as (a' & Hd & _ & _ & _ & _ & _ & Hcount).
  destruct (Hcount Scenario.session1) as [Hs Hlt].
  - reflexivity.
  - vm_compute. apply list_elem_of_here.
  - vm_compute. discriminate.
  - exists a'. split; [exact Hd|]. split; [exact Hs|exact Hlt].
Defined.

End Store.

(** ** Merging the project context *)

Section Merge.
Import Agent.

Lemma set_elements_acc {A} `{EqDecision A} (l acc : list A) :
  NoDup acc ->
  let out := fold_left
               (fun acc x => if decide (x ∈ acc) then acc else (acc ++ [x])%list)
               l acc in
  NoDup out /\ forall x, x ∈ out <-> x ∈ acc \/ x ∈ l.
Proof.
  revert acc. induction l as [|y l IH]; intros acc Hacc; simpl.
  - split; [done|]. intros x. rewrite elem_of_nil. tauto.
  - destruct (decide (y ∈ acc)) as [Hy|Hy].
    + destruct (IH acc Hacc) as [Hn Hiff]. split; [done|].
      intros x. rewrite Hiff, elem_of_cons. split; [tauto|].
      intros [?|[->|?]]; auto.
    + destruct (IH (acc ++ [y])%list) as [Hn Hiff].
      { apply NoDup_app. split_and!; [done| |apply NoDup_singleton].
        by intros x Hx ->%list_elem_of_singleton. }
      split; [done|]. intros x.
      rewrite Hiff, elem_of_app, list_elem_of_singleton, elem_of_cons. tauto.
Qed.

Lemma set_elements_NoDup {A} `{EqDecision A} (l : list A) :
  NoDup (set_elements l).
Proof. apply (set_elements_acc l []). constructor. Qed.

Lemma elem_of_set_elements {A} `{EqDecision A} (l : list A) x :
  x ∈ set_elements l <-> x ∈ l.
Proof.
  destruct (set_elements_acc l [] (NoDup_nil_2)) as [_ Hiff].
  unfold set_elements. rewrite Hiff, elem_of_nil. tauto.
Qed.

(** The array fields are additive as long as the update does not carry
    the key with [undefined] or [null] under it. *)
Lemma merge_errorLogs C P now :
  supplied (errorLogs P) = true ->
  items (errorLogs (merge C P now))
  = (items (errorLogs C) ++ items (errorLogs P))%list.
Proof.
  unfold merge. simpl.
  destruct (errorLogs P), (errorLogs C); simpl; try done;
    by rewrite ?app_nil_r.
Qed.

Lemma merge_resolvedIssues C P now :
  supplied (resolvedIssues P) = true ->
  items (resolvedIssues (merge C P now))
  = (items (resolvedIssues C) ++ items (resolvedIssues P))%list.
Proof.
  unfold merge. simpl.
  destruct (resolvedIssues P), (resolvedIssues C); simpl; try done;
    by rewrite ?app_nil_r.
Qed.

(** Where both sides hold an array of services, the merge is their
    union without repetition. *)
Lemma merge_services_union C P now x c :
  cloudflareServices C = Val x -> cloudflareServices P = Val c ->
  exists out, cloudflareServices (merge C P now) = Val out /\
              NoDup out /\ forall s, s ∈ out <-> s ∈ x \/ s ∈ c.
Proof.
  intros HC HP. unfold merge. simpl. rewrite HC, HP. eexists. split; [done|].
  split; [apply set_elements_NoDup|].
  intros s. by rewrite elem_of_set_elements, elem_of_app.
Qed.

Lemma getProjectContext_written a merged :
  broken (sql a) = false ->
  project_context (sql a) = Some (context_row merged) ->
  getProjectContext a = Ok (read_back merged).
Proof.
  intros Hb Hrow. unfold getProjectContext, one, try_catch, exec. rewrite Hb, Hrow.
  unfold read_back, context_row, parse_field, parse_cell, stringify_cell. simpl.
  by destruct (errorLogs merged), (resolvedIssues merged),
    (cloudflareServices merged).
Qed.

(** ... and so is the stored row: what is read after the update is what
    was read before it followed by what the update brought. *)
Lemma updateProjectContext_keeps_errorLogs e P a c :
  broken (sql a) = false -> getProjectContext a = Ok c ->
  supplied (errorLogs P) = true ->
  exists r a' c',
    updateProjectContext e P a = Ok (r, a') /\ success r = true /\
    getProjectContext a' = Ok c' /\
    items (errorLogs c') = (items (errorLogs c) ++ items (errorLogs P))%list.
Proof.
  intros Hb Hc HP. pose proof (updateProjectContext_Ok e P a c Hb Hc) as Hu.
  simpl in Hu. do 3 eexists. split; [exact Hu|]. split; [done|].
  split; [by apply getProjectContext_written|].
  rewrite <- (merge_errorLogs c P (getCurrentTimestamp e) HP). simpl.
  by destruct (errorLogs P), (errorLogs c).
Qed.

Lemma updateProjectContext_keeps_resolvedIssues e P a c :
  broken (sql a) = false -> getProjectContext a = Ok c ->
  supplied (resolvedIssues P) = true ->
  exists r a' c',
    updateProjectContext e P a = Ok (r, a') /\ success r = true /\
    getProjectContext a' = Ok c' /\
    items (resolvedIssues c')
    = (items (resolvedIssues c) ++ items (resolvedIssues P))%list.
Proof.
  intros Hb Hc HP. pose proof (updateProjectContext_Ok e P a c Hb Hc) as Hu.
  simpl in Hu. do 3 eexists. split; [exact Hu|]. split; [done|].
  split; [by apply getProjectContext_written|].
  rewrite <- (merge_resolvedIssues c P (getCurrentTimestamp e) HP). simpl.
  by destruct (resolvedIssues P), (resolvedIssues c).
Qed.

Lemma spread_twice_cell (x p : field string) :
  nullish_to_null (spread (of_cell (nullish_to_null (spread x p))) p)
  = nullish_to_null (spread x p).
Proof. by destruct p, x. Qed.

(** C6. Merging the same partial update a second time changes neither
    [workerCode] nor [projectName]: on the merged object itself, and in
    the stored row when [updateProjectContext] is called twice (it
    always returns). *)
Theorem merge_scalar_idempotent :
  (forall C P t1 t2,
      workerCode (merge (merge C P t1) P t2) = workerCode (merge C P t1) /\
      projectName (merge (merge C P t1) P t2) = projectName (merge C P t1)) /\
  (forall e1 e2 P a, exists r1 a1 r2 a2,
      updateProjectContext e1 P a = Ok (r1, a1) /\
      updateProjectContext e2 P a1 = Ok (r2, a2) /\
      worker_code <$> project_context (sql a2)
      = worker_code <$> project_context (sql a1) /\
      project_name <$> project_context (sql a2)
      = project_name <$> project_context (sql a1)).
Proof.
  split.
  - intros C P t1 t2. unfold merge. simpl.
    by destruct (workerCode P), (projectName P).
  - intros e1 e2 P a. destruct (broken (sql a)) eqn:Hb.
    + destruct (updateProjectContext_broken e1 P a Hb) as (r1 & H1 & _).
      destruct (updateProjectContext_broken e2 P a Hb) as (r2 & H2 & _).
      by exists r1, a, r2, a.
    + destruct (getProjectContext_total a) as [c Hc].
      pose proof (updateProjectContext_Ok e1 P a c Hb Hc) as H1. simpl in H1.
      set (m1 := merge c P (getCurrentTimestamp e1)) in *.
      set (a1 := touch _ _) in H1.
      assert (getProjectContext a1 = Ok (read_back m1)) as Hc1
        by (by apply getProjectContext_written).
      pose proof (updateProjectContext_Ok e2 P a1 _ Hb Hc1) as H2. simpl in H2.
      do 4 eexists. split; [exact H1|]. split; [exact H2|]. simpl.
      split; f_equal; apply spread_twice_cell.
Qed.

(** C1. The array fields are not kept under every partial update: on a
    store holding one error log, [updateProjectContext({ errorLogs:
    undefined })] succeeds and leaves the [error_logs] cell [NULL]. *)
Theorem updateProjectContext_undefined_drops_errorLogs :
  Scenario.undefined_errorLogs_run
  = Ok (true, Some (JsonOf ["TypeError: x is not a function"]), true, None).
Proof. vm_compute. reflexivity. Qed.

(** C5. A tag repeated inside one partial update is stored twice when
    the context holds no services yet:
    [updateProjectContext({ cloudflareServices: ["KV", "KV"] })] on an
    object without context row succeeds, returns and stores
    [["KV", "KV"]]. *)
Theorem updateProjectContext_repeated_service_kept :
  Scenario.repeated_service_run
  = Ok (true, Some (Val [KV; KV]), Some (JsonOf [KV; KV])).
Proof. vm_compute. reflexivity. Qed.

End Merge.

(** ** The step budget *)

Section Budget.
Import Orchestrator.







End Budget.

Section RateLimitFacts.
Import RateLimit.

Lemma check_fresh cfg now key store :
  no_live_entry now key store ->
  check cfg now key store =
    ({| allowed := true; remaining := maxRequests cfg - 1;
        limit := maxRequests cfg; resultResetAt := now + windowMs cfg;
        retryAfter := None |},
     <[key := {| count := 1; resetAt := now + windowMs cfg |}]> store).
Proof.
  unfold no_live_entry, check. destruct (store !! key) as [e|]; [|done].
  intros H. apply Z.ltb_lt in H. by rewrite H.
Qed.

Lemma check_within cfg now key store e :
  store !! key = Some e -> now <= resetAt e -> count e < maxRequests cfg ->
  check cfg now key store =
    ({| allowed := true; remaining := maxRequests cfg - (count e + 1);
        limit := maxRequests cfg; resultResetAt := resetAt e;
        retryAfter := None |},
     <[key := {| count := count e + 1; resetAt := resetAt e |}]> store).
Proof.
  intros He Hn Hc. unfold check. rewrite He.
  destruct (Z.ltb_spec (resetAt e) now); [lia|].
  destruct (Z.ltb_spec (count e) (maxRequests cfg)); [done|lia].
Qed.

Lemma check_limited cfg now key store e :
  store !! key = Some e -> now <= resetAt e -> maxRequests cfg <= count e ->
  allowed (fst (check cfg now key store)) = false /\
  snd (check cfg now key store) = store.
Proof.
  intros He Hn Hc. unfold check. rewrite He.
  destruct (Z.ltb_spec (resetAt e) now); [lia|].
  destruct (Z.ltb_spec (count e) (maxRequests cfg)); [lia|done].
Qed.

(** C4. With [maxRequests = 3] and [windowMs = 1000], four [check(key)]
    calls on a key with no live entry, the last three no later than
    1000 ms after the first, are allowed, allowed, allowed, refused; and
    under any configuration a call strictly after the entry's [resetAt]
    is allowed and stores a fresh entry with [count = 1]. *)
Theorem check_window_behaviour :
  (forall key store t1 t2 t3 t4,
      no_live_entry t1 key store ->
      t2 <= t1 + 1000 -> t3 <= t1 + 1000 -> t4 <= t1 + 1000 ->
      fst (check_seq cfg_3_1000 key [t1; t2; t3; t4] store)
      = [true; true; true; false]) /\
  (forall cfg key store e now,
      store !! key = Some e -> resetAt e < now ->
      allowed (fst (check cfg now key store)) = true /\
      snd (check cfg now key store) !! key
      = Some {| count := 1; resetAt := now + windowMs cfg |}).
Proof.
  split.
  - intros key store t1 t2 t3 t4 H1 H2 H3 H4. cbn [check_seq].
    rewrite (check_fresh _ _ _ _ H1). cbn [windowMs maxRequests cfg_3_1000 mkConfig default].
    set (s1 := <[key := _]> store).
    rewrite (check_within cfg_3_1000 t2 key s1 {| count := 1; resetAt := t1 + 1000 |});
      [| by apply lookup_insert_eq | simpl; lia | simpl; lia ].
    cbn [count resetAt]. set (s2 := <[key := _]> s1).
    rewrite (check_within cfg_3_1000 t3 key s2 {| count := 2; resetAt := t1 + 1000 |});
      [| by apply lookup_insert_eq | simpl; lia | simpl; lia ].
    cbn [count resetAt]. set (s3 := <[key := _]> s2).
    destruct (check_limited cfg_3_1000 t4 key s3 {| count := 3; resetAt := t1 + 1000 |})
      as [Ha _]; [ by apply lookup_insert_eq | simpl; lia | simpl; lia |].
    destruct (check cfg_3_1000 t4 key s3) as [r s4]. simpl in Ha. simpl.
    by rewrite Ha.
  - intros cfg key store e now He Hlt.
    rewrite check_fresh; [| unfold no_live_entry; by rewrite He ].
    simpl. split; [done | apply lookup_insert_eq].
Qed.

Lemma check_window_witness :
  fst (check_seq cfg_3_1000 "203.0.113.7" [5000; 5010; 5600; 6000] ∅)
  = [true; true; true; false] /\
  allowed (fst (check cfg_3_1000 6001 "203.0.113.7"
                  {[ "203.0.113.7" := {| count := 3; resetAt := 6000 |} ]}))
  = true.
Proof.
  destruct check_window_behaviour as [Hfour Hafter]. split.
  - apply Hfour; [unfold no_live_entry; by rewrite lookup_empty|lia|lia|lia].
  - apply (Hafter cfg_3_1000 "203.0.113.7" _ {| count := 3; resetAt := 6000 |});
      [apply lookup_singleton_eq|simpl; lia].
Defined.

End RateLimitFacts.


(** * Further properties of the rate limiter *)

Section RateLimitMore.
Import RateLimit.

Lemma check_seq_within cfg key times : forall store e,
  store !! key = Some e ->
  Forall (fun t => t <= resetAt e) times ->
  let k := Z.to_nat (maxRequests cfg - count e) in
  fst (check_seq cfg key times store)
  = (replicate (k `min` length times) true
     ++ replicate (length times - k) false)%list.
Proof.
  induction times as [|t times IH]; intros store e He Hall; simpl.
  - by rewrite Nat.min_0_r.
  - apply Forall_cons in Hall as [Ht Hall].
    destruct (Z_lt_le_dec (count e) (maxRequests cfg)) as [Hlt|Hge].
    + rewrite (check_within cfg t key store e He Ht Hlt).
      set (e' := {| count := count e + 1; resetAt := resetAt e |}).
      specialize (IH (<[key := e']> store) e' (lookup_insert_eq _ _ _) Hall).
      simpl in IH. destruct (check_seq cfg key times _) as [bs s2]. simpl in *.
      rewrite IH.
      replace (Z.to_nat (maxRequests cfg - count e))
        with (S (Z.to_nat (maxRequests cfg - (count e + 1)))) by lia.
      reflexivity.
    + destruct (check_limited cfg t key store e He Ht Hge) as [Ha Hs].
      destruct (check cfg t key store) as [r s1]. simpl in Ha, Hs. subst s1.
      specialize (IH store e He Hall). simpl in IH.
      destruct (check_seq cfg key times store) as [bs s2]. simpl in *.
      rewrite Ha, IH.
      replace (Z.to_nat (maxRequests cfg - count e)) with 0%nat by lia.
      by rewrite Nat.sub_0_r.
Qed.

(** X1. Within one window the limiter admits the first request and then
    [maxRequests - 1] more, whatever the limit and however many requests
    follow: on a key with no live entry, with every later request no
    later than the end of the window the first one opens, the flags are
    [true], then [maxRequests - 1] times [true] (none when the limit is
    one or less), then [false] to the end. *)
Theorem check_seq_one_window cfg key store t1 rest :
  no_live_entry t1 key store ->
  Forall (fun t => t <= t1 + windowMs cfg) rest ->
  let k := Z.to_nat (maxRequests cfg - 1) in
  fst (check_seq cfg key (t1 :: rest) store)
  = (true :: replicate (k `min` length rest) true
          ++ replicate (length rest - k) false)%list.
Proof.
  intros H1 Hrest k. cbn [check_seq]. rewrite (check_fresh _ _ _ _ H1).
  set (e := {| count := 1; resetAt := t1 + windowMs cfg |}).
  pose proof (check_seq_within cfg key rest (<[key := e]> store) e
                (lookup_insert_eq _ _ _) Hrest) as Hw.
  simpl in Hw. destruct (check_seq cfg key rest _) as [bs s2]. simpl in *.
  by rewrite Hw.
Qed.

Lemma check_seq_one_window_witness :
  fst (check_seq (mkConfig (Some 2) (Some 500)) "198.51.100.4"
         [100; 200; 600; 600; 300] ∅)
  = [true; true; false; false; false].
Proof.
  apply (check_seq_one_window (mkConfig (Some 2) (Some 500)) "198.51.100.4" ∅
           100 [200; 600; 600; 300]).
  - unfold no_live_entry. by rewrite lookup_empty.
  - repeat constructor; simpl; lia.
Defined.

(** X2. Clients do not affect one another: a [check] for one key
    leaves the entry of every other key as it was, and its verdict
    depends on the store only through the entry of its own key. *)
Theorem check_isolated cfg now key other store store' :
  other <> key ->
  store' !! key = store !! key ->
  snd (check cfg now key store) !! other = store !! other /\
  fst (check cfg now key store') = fst (check cfg now key store).
Proof.
  intros Hne Hsame. split.
  - unfold check. destruct (store !! key) as [e|]; cbn [snd].
    + destruct (resetAt e <? now); cbn [snd]; [by rewrite lookup_insert_ne|].
      destruct (count e <? maxRequests cfg); cbn [snd];
        [by rewrite lookup_insert_ne|done].
    + by rewrite lookup_insert_ne.
  - unfold check. rewrite Hsame. destruct (store !! key) as [e|]; [|done].
    destruct (resetAt e <? now); [done|]. by destruct (count e <? maxRequests cfg).
Qed.

Lemma check_isolated_witness :
  snd (check cfg_3_1000 50 "a" {[ "b" := {| count := 3; resetAt := 900 |} ]})
    !! "b" = Some {| count := 3; resetAt := 900 |} /\
  fst (check cfg_3_1000 50 "a" ∅)
  = fst (check cfg_3_1000 50 "a" {[ "b" := {| count := 3; resetAt := 900 |} ]}).
Proof.
  destruct (check_isolated cfg_3_1000 50 "a" "b"
              {[ "b" := {| count := 3; resetAt := 900 |} ]} ∅) as [H1 H2].
  - discriminate.
  - rewrite lookup_empty. by rewrite lookup_singleton_ne.
  - split; [|exact H2]. rewrite H1. apply lookup_singleton_eq.
Defined.

(** X3. Under a limit of at least one, [check] keeps every stored count
    between one and the limit, and reports the limit and a remaining
    quota between zero and the limit minus one. *)
Theorem check_keeps_bounds cfg now key store :
  1 <= maxRequests cfg ->
  entries_bounded cfg store ->
  entries_bounded cfg (snd (check cfg now key store)) /\
  limit (fst (check cfg now key store)) = maxRequests cfg /\
  0 <= remaining (fst (check cfg now key store)) < maxRequests cfg.
Proof.
  intros Hmax Hb. unfold check.
  assert (entries_bounded cfg
            (<[key := {| count := 1; resetAt := now + windowMs cfg |}]> store))
    as Hfresh.
  { intros k e. rewrite lookup_insert. case_decide; [|apply Hb].
    intros [= <-]. simpl. lia. }
  destruct (store !! key) as [e|] eqn:He; simpl; [|split; [done|lia]].
  destruct (Z.ltb_spec (resetAt e) now); simpl; [split; [done|lia]|].
  pose proof (Hb key e He).
  destruct (Z.ltb_spec (count e) (maxRequests cfg)); simpl.
  - split; [|lia]. intros k e'. rewrite lookup_insert. case_decide; [|apply Hb].
    intros [= <-]. simpl. lia.
  - split; [done|lia].
Qed.

Lemma check_keeps_bounds_witness :
  entries_bounded cfg_3_1000 (snd (check cfg_3_1000 10 "a" ∅)) /\
  limit (fst (check cfg_3_1000 10 "a" ∅)) = 3 /\
  0 <= remaining (fst (check cfg_3_1000 10 "a" ∅)) < 3.
Proof.
  apply (check_keeps_bounds cfg_3_1000 10 "a" ∅).
  - simpl. lia.
  - intros k e. rewrite lookup_empty. discriminate.
Defined.

(** X4. A verdict is either an admission, without [retryAfter], or a
    refusal: then the store is left as it was, nothing remains, the
    window of the stored entry is still open, and [retryAfter] is the
    time to its end in seconds, rounded up. *)
Theorem check_refusal cfg now key store :
  let r := fst (check cfg now key store) in
  (allowed r = true /\ retryAfter r = None) \/
  (allowed r = false /\ snd (check cfg now key store) = store /\
   remaining r = 0 /\
   exists e q, store !! key = Some e /\ now <= resetAt e /\
               maxRequests cfg <= count e /\ retryAfter r = Some q /\
               1000 * (q - 1) < resetAt e - now <= 1000 * q).
Proof.
  unfold check. destruct (store !! key) as [e|] eqn:He; simpl; [|by left].
  destruct (Z.ltb_spec (resetAt e) now); simpl; [by left|].
  destruct (Z.ltb_spec (count e) (maxRequests cfg)); simpl; [by left|].
  right. split_and!; try done. exists e, (ceil_div_1000 (resetAt e - now)).
  split_and!; try done; unfold ceil_div_1000.
  - pose proof (Z.mod_pos_bound (- (resetAt e - now)) 1000 ltac:(lia)).
    pose proof (Z.div_mod (- (resetAt e - now)) 1000 ltac:(lia)). lia.
  - pose proof (Z.mod_pos_bound (- (resetAt e - now)) 1000 ltac:(lia)).
    pose proof (Z.div_mod (- (resetAt e - now)) 1000 ltac:(lia)). lia.
Qed.

Lemma cleanup_lookup now store k :
  cleanup now store !! k
  = match store !! k with
    | Some e => if resetAt e <? now then None else Some e
    | None => None
    end.
Proof.
  unfold cleanup. destruct (store !! k) as [e|] eqn:He.
  - destruct (resetAt e <? now) eqn:Hlt.
    + apply map_lookup_filter_None. right. intros e' He'. simpl.
      assert (e' = e) as -> by congruence. by rewrite Hlt.
    + apply map_lookup_filter_Some. split; [done|]. simpl. by rewrite Hlt.
  - apply map_lookup_filter_None. by left.
Qed.

(** X5. The periodic sweep is invisible to clients: a [check] made at or
    after the time of a [cleanup] gives the verdict, and leaves the
    entry for its key, that it would have without the sweep. *)
Theorem cleanup_transparent cfg swept now key store :
  swept <= now ->
  fst (check cfg now key (cleanup swept store)) = fst (check cfg now key store) /\
  snd (check cfg now key (cleanup swept store)) !! key
  = snd (check cfg now key store) !! key.
Proof.
  intros Hle. unfold check. rewrite cleanup_lookup.
  destruct (store !! key) as [e|] eqn:He; simpl.
  - destruct (Z.ltb_spec (resetAt e) swept) as [Hs|Hs].
    + destruct (Z.ltb_spec (resetAt e) now); [|lia].
      simpl. by rewrite !lookup_insert_eq.
    + destruct (Z.ltb_spec (resetAt e) now); simpl; [by rewrite !lookup_insert_eq|].
      destruct (count e <? maxRequests cfg); simpl; [by rewrite !lookup_insert_eq|].
      by rewrite cleanup_lookup, He, (proj2 (Z.ltb_ge _ _) Hs).
  - simpl. by rewrite !lookup_insert_eq.
Qed.

Lemma cleanup_transparent_witness :
  fst (check cfg_3_1000 2000 "a"
         (cleanup 1500 {[ "a" := {| count := 3; resetAt := 1200 |} ]}))
  = fst (check cfg_3_1000 2000 "a" {[ "a" := {| count := 3; resetAt := 1200 |} ]}).
Proof.
  apply (cleanup_transparent cfg_3_1000 1500 2000 "a"). lia.
Defined.

(** X6. [reset(key)] and [clear()] forgive: the next [check] of the key
    is admitted and starts a window with a count of one, however
    exhausted the key was; [reset] leaves every other key alone. *)
Theorem reset_forgives cfg now key store :
  let fresh := {| count := 1; resetAt := now + windowMs cfg |} in
  allowed (fst (check cfg now key (reset key store))) = true /\
  snd (check cfg now key (reset key store)) !! key = Some fresh /\
  allowed (fst (check cfg now key (clear store))) = true /\
  snd (check cfg now key (clear store)) !! key = Some fresh /\
  forall other, other <> key -> reset key store !! other = store !! other.
Proof.
  assert (no_live_entry now key (reset key store)) as H1
    by (unfold no_live_entry, reset; by rewrite lookup_delete_eq).
  assert (no_live_entry now key (clear store)) as H2
    by (unfold no_live_entry, clear; by rewrite lookup_empty).
  rewrite (check_fresh _ _ _ _ H1), (check_fresh _ _ _ _ H2). simpl.
  rewrite !lookup_insert_eq. split_and!; try done.
  intros other Hne. unfold reset. by rewrite lookup_delete_ne.
Qed.

Lemma reset_forgives_witness :
  allowed (fst (check cfg_3_1000 700 "a"
                  (reset "a" {[ "a" := {| count := 3; resetAt := 900 |} ]})))
  = true /\
  reset "a" {[ "a" := {| count := 3; resetAt := 900 |};
               "b" := {| count := 2; resetAt := 950 |} ]} !! "b"
  = Some {| count := 2; resetAt := 950 |}.
Proof.
  split.
  - apply (reset_forgives cfg_3_1000 700 "a").
  - destruct (reset_forgives cfg_3_1000 700 "a"
                {[ "a" := {| count := 3; resetAt := 900 |};
                   "b" := {| count := 2; resetAt := 950 |} ]})
      as (_ & _ & _ & _ & Hother).
    rewrite (Hother "b") by discriminate.
    rewrite lookup_insert_ne by discriminate. apply lookup_singleton_eq.
Defined.

Lemma check_retryAfter cfg now key store :
  let r := fst (check cfg now key store) in
  (allowed r = true /\ retryAfter r = None) \/
  (allowed r = false /\ exists q, retryAfter r = Some q).
Proof.
  unfold check. destruct (store !! key) as [e|]; simpl; [|by left].
  destruct (resetAt e <? now); simpl; [by left|].
  destruct (count e <? maxRequests cfg); simpl; [by left|].
  right. split; [done|by eexists].
Qed.

(** X7. The headers built for a verdict always carry the three
    [X-RateLimit-*] fields, and carry [Retry-After] exactly when the
    request was refused. *)
Theorem getHeaders_of_check str iso cfg now key store :
  let r := fst (check cfg now key store) in
  let headers := getHeaders str iso r in
  is_Some (headers !! "X-RateLimit-Limit") /\
  is_Some (headers !! "X-RateLimit-Remaining") /\
  is_Some (headers !! "X-RateLimit-Reset") /\
  (is_Some (headers !! "Retry-After") <-> allowed r = false).
Proof.
  intros r headers. subst headers. unfold getHeaders.
  destruct (check_retryAfter cfg now key store) as [[Ha Hr]|[Ha [q Hr]]];
    fold r in Ha, Hr; rewrite Hr, Ha.
  - split_and!; try (by eexists). split; [|done].
    intros [v Hv]. by vm_compute in Hv.
  - split_and!; try (by eexists).
Qed.

Lemma first_segment_app hop rest :
  comma_free hop = true ->
  first_segment (hop ++ String "," rest)%string = hop.
Proof.
  induction hop as [|c hop IH]; simpl; [done|].
  intros [Hc Hhop]%andb_prop. apply negb_true_iff in Hc. rewrite Hc.
  by rewrite IH.
Qed.

Lemma first_segment_free f : comma_free f = true -> first_segment f = f.
Proof.
  induction f as [|c f IH]; simpl; [done|].
  intros [Hc Hf]%andb_prop. apply negb_true_iff in Hc. rewrite Hc.
  by rewrite IH.
Qed.

Lemma comma_free_first_segment f : comma_free (first_segment f) = true.
Proof.
  induction f as [|c f IH]; simpl; [done|].
  destruct (Ascii.eqb c ",") eqn:Hc; simpl; [done|]. by rewrite Hc.
Qed.

Lemma comma_free_trim_start s : comma_free s = true -> comma_free (trim_start s) = true.
Proof.
  induction s as [|c s IH]; simpl; [done|].
  intros H. destruct (is_white_space c); [|done].
  apply andb_prop in H as [_ H]. by apply IH.
Qed.

Lemma comma_free_trim_end s : comma_free s = true -> comma_free (trim_end s) = true.
Proof.
  induction s as [|c s IH]; simpl; [done|].
  intros [Hc Hs]%andb_prop. specialize (IH Hs).
  destruct (trim_end s) as [|c' t]; simpl in *.
  - destruct (is_white_space c); simpl; [done|]. by rewrite Hc.
  - by rewrite Hc, IH.
Qed.

Lemma header_truthy_Some v : v <> "" -> header_truthy (Some v) = Some v.
Proof.
  intros Hv. unfold header_truthy.
  destruct (String.eqb_spec v ""); [done|done].
Qed.

(** X8. [getClientIdentifier] keys a client by the first hop of
    [x-forwarded-for], trimmed, whatever follows the first comma and
    whatever the other headers say, and that key never contains a comma;
    without a non-empty [x-forwarded-for] it takes [x-real-ip] as it is,
    then [cf-connecting-ip], and ["anonymous"] when none is sent. *)
Theorem getClientIdentifier_precedence h :
  (forall hop rest,
      x_forwarded_for h = Some (hop ++ String "," rest)%string ->
      comma_free hop = true -> getClientIdentifier h = trim hop) /\
  (forall f, x_forwarded_for h = Some f -> f <> "" -> comma_free f = true ->
             getClientIdentifier h = trim f) /\
  (forall f, header_truthy (x_forwarded_for h) = Some f ->
             comma_free (getClientIdentifier h) = true) /\
  (header_truthy (x_forwarded_for h) = None ->
   (forall ip, x_real_ip h = Some ip -> ip <> "" -> getClientIdentifier h = ip) /\
   (header_truthy (x_real_ip h) = None ->
    (forall ip, cf_connecting_ip h = Some ip -> ip <> "" ->
                getClientIdentifier h = ip) /\
    (header_truthy (cf_connecting_ip h) = None ->
     getClientIdentifier h = "anonymous"))).
Proof.
  unfold getClientIdentifier. split_and!.
  - intros hop rest -> Hfree. rewrite header_truthy_Some by (by destruct hop).
    by rewrite first_segment_app.
  - intros f -> Hne Hfree. rewrite header_truthy_Some by done.
    by rewrite first_segment_free.
  - intros f ->. apply comma_free_trim_end, comma_free_trim_start,
      comma_free_first_segment.
  - intros ->. split.
    + intros ip -> Hne. by rewrite header_truthy_Some.
    + intros ->. split; [|by intros ->].
      intros ip -> Hne. by rewrite header_truthy_Some.
Qed.

Lemma getClientIdentifier_precedence_witness :
  getClientIdentifier
    {| x_forwarded_for := Some " 203.0.113.7 , 10.0.0.1, 10.0.0.2";
       x_real_ip := Some "192.0.2.1"; cf_connecting_ip := None |}
  = "203.0.113.7" /\
  getClientIdentifier
    {| x_forwarded_for := Some ""; x_real_ip := None;
       cf_connecting_ip := Some "198.51.100.9" |}
  = "198.51.100.9".
Proof.
  split.
  - apply (proj1 (getClientIdentifier_precedence _) " 203.0.113.7 "
             " 10.0.0.1, 10.0.0.2"); reflexivity.
  - destruct (getClientIdentifier_precedence
                {| x_forwarded_for := Some ""; x_real_ip := None;
                   cf_connecting_ip := Some "198.51.100.9" |})
      as (_ & _ & _ & H).
    destruct (H eq_refl) as [_ H']. destruct (H' eq_refl) as [Hcf _].
    apply Hcf; [reflexivity|discriminate].
Defined.

End RateLimitMore.


(** * Further properties of the Durable Object *)

Section StoreMore.
Import Agent.

(** *** What the methods return, exactly *)

Lemma addMessage_Ok_inv e r c md a m a' :
  addMessage e r c md a = Ok (m, a') ->
  broken (sql a) = false /\
  (generateId e ∉ row_id <$> messages (sql a)) /\
  m = {| id := generateId e; role := r; content := c;
         timestamp := getCurrentTimestamp e; metadata := md |} /\
  a' = touch (getCurrentTimestamp e)
         (bump {| sql := with_messages (sql a)
                           (messages (sql a)
                            ++ [ {| row_id := generateId e; row_role := r;
                                    row_content := c;
                                    row_timestamp := getCurrentTimestamp e;
                                    row_metadata := JSON_stringify <$> md |} ])%list;
                  sessionCache := sessionCache a |}).
Proof.
  unfold addMessage, incrementMessageCount, updateSessionActivity, try_catch, exec.
  destruct (broken (sql a)) eqn:Hb; simpl; [discriminate|].
  destruct (decide (generateId e ∈ row_id <$> messages (sql a))) as [?|Hnew];
    simpl; [discriminate|].
  rewrite Hb. simpl. rewrite Hb. simpl. by intros [= <- <-].
Qed.

Lemma addMessage_Ok_intro e r c md a :
  broken (sql a) = false ->
  generateId e ∉ row_id <$> messages (sql a) ->
  exists m a', addMessage e r c md a = Ok (m, a').
Proof.
  intros Hb Hnew.
  unfold addMessage, incrementMessageCount, updateSessionActivity, try_catch, exec.
  rewrite Hb. simpl.
  destruct (decide (generateId e ∈ row_id <$> messages (sql a))); [done|].
  simpl. rewrite Hb. simpl. rewrite Hb. simpl. eauto.
Qed.

Lemma getConversationHistory_Ok_state e o a ms a' :
  getConversationHistory e o a = Ok (ms, a') ->
  broken (sql a) = false /\ a' = touch (getCurrentTimestamp e) a.
Proof.
  unfold getConversationHistory, updateSessionActivity, try_catch, exec.
  destruct (broken (sql a)) eqn:Hb; simpl; [discriminate|].
  destruct (mapM row_to_message _); simpl; [|discriminate].
  by intros [= <- <-].
Qed.

Lemma agent_eta (a : Agent) :
  {| sql := with_messages (sql a) (messages (sql a));
     sessionCache := sessionCache a |} = a.
Proof. by destruct a as [[] ?]. Qed.

Lemma deleteMessage_Ok mid a :
  broken (sql a) = false ->
  deleteMessage mid a
  = Ok (true, {| sql := with_messages (sql a)
                          (filter (fun r => row_id r <> mid) (messages (sql a)));
                 sessionCache := sessionCache a |}).
Proof. intros Hb. unfold deleteMessage, try_catch, exec. by rewrite Hb. Qed.

Lemma deleteMessage_broken mid a :
  broken (sql a) = true -> deleteMessage mid a = Ok (false, a).
Proof. intros Hb. unfold deleteMessage, try_catch, exec. by rewrite Hb. Qed.

Lemma deactivateSession_Ok a a' :
  deactivateSession a = Ok a' ->
  broken (sql a) = false /\
  messages (sql a') = messages (sql a) /\
  project_context (sql a') = project_context (sql a) /\
  forall row, session_info (sql a) = Some row ->
    sessionCache a = Some (session_of_row row) ->
    exists row', session_info (sql a') = Some row' /\
                 sessionCache a' = Some (session_of_row row') /\
                 is_active row' = 0 /\
                 session_id row' = session_id row /\
                 message_count row' = message_count row.
Proof.
  unfold deactivateSession, exec.
  destruct (broken (sql a)) eqn:Hb; simpl; [discriminate|].
  intros [= <-]. simpl. split_and!; try done.
  intros row -> ->. by eexists.
Qed.

(** *** Adding and reading messages *)

(** X11. [addMessage] returns exactly when the storage answers and the
    generated id is not stored yet, and then the message it returns is
    the one it was given, under that id and the current timestamp; in
    every other case it throws an error whose message starts with
    "Failed to add message: " (an id that is already stored is refused,
    not overwritten). *)
Theorem addMessage_outcome e r c md a :
  match addMessage e r c md a with
  | Ok (m, a') =>
      broken (sql a) = false /\
      (generateId e ∉ row_id <$> messages (sql a)) /\
      m = {| id := generateId e; role := r; content := c;
             timestamp := getCurrentTimestamp e; metadata := md |}
  | Throw msg =>
      (broken (sql a) = true \/ generateId e ∈ row_id <$> messages (sql a)) /\
      exists cause, msg = "Failed to add message: " +:+ cause
  end.
Proof.
  destruct (addMessage e r c md a) as [[m a']|msg] eqn:H.
  - by apply addMessage_Ok_inv in H as (? & ? & ? & _).
  - split.
    + destruct (broken (sql a)) eqn:Hb; [by left|right].
      destruct (decide (generateId e ∈ row_id <$> messages (sql a))); [done|].
      destruct (addMessage_Ok_intro e r c md a Hb) as (? & ? & ?); [done|congruence].
    + revert H. unfold addMessage, try_catch.
      destruct (_ ≫= _) as [|cause]; [discriminate|]. intros [= <-]. by eexists.
Qed.

Lemma matching_no_options db : matching no_options db = messages db.
Proof.
  unfold matching. induction (messages db) as [|r l IH]; [done|].
  rewrite filter_cons_True by done. by rewrite IH.
Qed.

Lemma select_messages_matching o db r :
  r ∈ select_messages o db -> r ∈ matching o db.
Proof.
  unfold select_messages, apply_limit. fold (matching o db). intros H.
  rewrite <- order_by_perm.
  destruct (opt_limit o) as [n|]; [|done].
  destruct (0 <? n); [|done]. by eapply subseteq_take.
Qed.


Lemma select_messages_no_options db :
  select_messages no_options db ≡ₚ messages db.
Proof.
  change (select_messages no_options db)
    with (order_by_timestamp_desc (matching no_options db)).
  by rewrite order_by_perm, matching_no_options.
Qed.

(** Every message returned was parsed from a matching stored row. *)
Lemma getConversationHistory_sources e o a ms a' m :
  getConversationHistory e o a = Ok (ms, a') -> m ∈ ms ->
  exists r, r ∈ matching o (sql a) /\ row_to_message r = Ok m.
Proof.
  intros Hget [i Hi]%list_elem_of_lookup.
  pose proof (getConversationHistory_Ok _ _ _ _ _ Hget) as Hall.
  destruct (Forall2_lookup_r _ _ _ _ _ Hall Hi) as (r & Hr & Hrm).
  exists r. split; [|done]. apply select_messages_matching.
  rewrite <- elem_of_reverse. by eapply list_elem_of_lookup_2.
Qed.

Lemma row_to_message_stored r md :
  row_metadata r = JSON_stringify <$> md ->
  row_to_message r
  = Ok {| id := row_id r; role := row_role r; content := row_content r;
          timestamp := row_timestamp r; metadata := md |}.
Proof. unfold row_to_message. intros ->. by destruct md. Qed.


(** X12. What is added can be read back: after a successful
    [addMessage] on a store whose rows are readable, the table holds
    the old rows followed by one new row, which carries the id, role,
    content and timestamp of the message returned; the row count
    reported by [getMessageCount] has grown by one; and the unfiltered
    history returns the stored rows, all of them and each once (the
    list returned is, message by message, the image of a permutation of
    the table), so that a message with the id, role, content and
    timestamp of the one added is among them. *)
Theorem addMessage_then_history e r c md a m a' :
  readable a = true ->
  addMessage e r c md a = Ok (m, a') ->
  getMessageCount a' = Ok (Z.of_nat (length (messages (sql a))) + 1) /\
  (exists row,
     messages (sql a') = (messages (sql a) ++ [row])%list /\
     row_id row = id m /\ row_role row = role m /\
     row_content row = content m /\ row_timestamp row = timestamp m) /\
  forall e', exists ms a'' rows,
    getConversationHistory e' no_options a' = Ok (ms, a'') /\
    rows ≡ₚ messages (sql a') /\
    Forall2 (fun r m' => row_to_message r = Ok m') rows ms /\
    exists m', m' ∈ ms /\ id m' = id m /\ role m' = role m /\
               content m' = content m /\ timestamp m' = timestamp m.
Proof.
  intros [Hb Hmd]%andb_prop Hadd.
  apply addMessage_Ok_inv in Hadd as (Hb' & Hnew & -> & ->).
  set (row := {| row_id := generateId e; row_role := r; row_content := c;
                 row_timestamp := getCurrentTimestamp e;
                 row_metadata := JSON_stringify <$> md |}).
  set (a1 := touch (getCurrentTimestamp e)
               (bump {| sql := with_messages (sql a) (messages (sql a) ++ [row])%list;
                        sessionCache := sessionCache a |})).
  assert (messages (sql a1) = (messages (sql a) ++ [row])%list) as Hrows by done.
  split_and!.
  - unfold getMessageCount, exec. simpl. rewrite Hb'. simpl.
    rewrite length_app. simpl. f_equal. lia.
  - by exists row.
  - intros e'.
    destruct (getConversationHistory_returns e' no_options a1) as (ms & a'' & Hget).
    { unfold readable. simpl. rewrite Hb', forallb_app, Hmd. simpl.
      unfold metadata_readable. simpl. by destruct md. }
    pose proof (getConversationHistory_Ok _ _ _ _ _ Hget) as Hall.
    exists ms, a'', (reverse (select_messages no_options (sql a1))).
    split_and!; [done| |done|].
    + by rewrite reverse_Permutation, select_messages_no_options.
    + assert (row ∈ reverse (select_messages no_options (sql a1))) as Hin.
      { rewrite elem_of_reverse, select_messages_no_options, Hrows.
        apply elem_of_app. right. by apply list_elem_of_singleton. }
      apply list_elem_of_lookup in Hin as [i Hi].
      destruct (Forall2_lookup_l _ _ _ _ _ Hall Hi) as (m' & Hm' & Hrm).
      apply row_to_message_fields in Hrm as (? & ? & ? & ?).
      exists m'. split; [by eapply list_elem_of_lookup_2|done].
Qed.

Lemma addMessage_then_history_witness :
  getMessageCount Scenario.agent1 = Ok (0 + 1) /\
  exists ms a'' rows,
    getConversationHistory Scenario.env2 no_options Scenario.agent1 = Ok (ms, a'') /\
    rows ≡ₚ [Scenario.hello_row] /\
    Forall2 (fun r m' => row_to_message r = Ok m') rows ms.
Proof.
  destruct (addMessage_then_history Scenario.env1 user "hello" None Scenario.agent0
              {| id := row_id Scenario.hello_row; role := user; content := "hello";
                 timestamp := row_timestamp Scenario.hello_row; metadata := None |}
              Scenario.agent1) as (Hcount & _ & Hhist).
  - reflexivity.
  - vm_compute. reflexivity.
  - split; [exact Hcount|].
    destruct (Hhist Scenario.env2) as (ms & a'' & rows & Hget & Hperm & Hall & _).
    exists ms, a'', rows. split; [exact Hget|]. split; [exact Hperm|exact Hall].
Defined.



(** X14. Reading the history counts as activity and changes nothing
    else: the stored messages and the context stay as they were, and
    the session row keeps every field but [last_activity_at], which
    becomes the time of the read. *)
Theorem getConversationHistory_only_touches e o a ms a' :
  getConversationHistory e o a = Ok (ms, a') ->
  messages (sql a') = messages (sql a) /\
  project_context (sql a') = project_context (sql a) /\
  forall row, session_info (sql a) = Some row ->
    session_info (sql a')
    = Some {| session_id := session_id row; created_at := created_at row;
              last_activity_at := getCurrentTimestamp e;
              message_count := message_count row;
              is_active := is_active row |}.
Proof.
  intros [_ ->]%getConversationHistory_Ok_state. simpl. split_and!; try done.
  by intros row ->.
Qed.

Lemma getConversationHistory_only_touches_witness :
  exists ms a',
    getConversationHistory Scenario.env2 no_options Scenario.agent1 = Ok (ms, a') /\
    messages (sql a') = [Scenario.hello_row] /\
    (last_activity_at <$> session_info (sql a'))
    = Some (getCurrentTimestamp Scenario.env2).
Proof.
  destruct (getConversationHistory_returns Scenario.env2 no_options
              Scenario.agent1 eq_refl) as (ms & a' & Hget).
  exists ms, a'. split; [exact Hget|].
  destruct (getConversationHistory_only_touches _ _ _ _ _ Hget) as (Hm & _ & Hs).
  split; [exact Hm|]. by rewrite (Hs Scenario.session1 eq_refl).
Defined.

(** X15. [deleteMessage] reports success whether or not a message had
    that id: with an unknown id the whole object is left as it was and
    [true] is still returned; after a delete the id is gone from the
    table and from every history, and deleting again changes nothing. *)
Theorem deleteMessage_unknown_or_repeated mid a :
  broken (sql a) = false ->
  (mid ∉ row_id <$> messages (sql a) -> deleteMessage mid a = Ok (true, a)) /\
  exists a1,
    deleteMessage mid a = Ok (true, a1) /\
    (mid ∉ row_id <$> messages (sql a1)) /\
    deleteMessage mid a1 = Ok (true, a1) /\
    forall e o ms a2, getConversationHistory e o a1 = Ok (ms, a2) ->
                      mid ∉ id <$> ms.
Proof.
  intros Hb. rewrite (deleteMessage_Ok mid a Hb). split.
  - intros Habs. rewrite filter_id_absent by done. by rewrite agent_eta.
  - eexists. split; [reflexivity|].
    assert (mid ∉ row_id <$> filter (fun r => row_id r <> mid) (messages (sql a)))
      as Hgone.
    { intros (r & -> & [Hr _]%list_elem_of_filter)%list_elem_of_fmap. done. }
    split_and!.
    + done.
    + rewrite deleteMessage_Ok by done. cbn [sql messages with_messages].
      rewrite (filter_id_absent mid _ Hgone). reflexivity.
    + intros e o ms a2 Hget (m & -> & Hm)%list_elem_of_fmap.
      destruct (getConversationHistory_sources _ _ _ _ _ m Hget Hm) as (r & Hr & Hrm).
      apply list_elem_of_filter in Hr as [_ Hr]. cbn [sql messages with_messages] in Hr.
      apply row_to_message_fields in Hrm as (Hid & _).
      apply list_elem_of_filter in Hr as [Hne _]. congruence.
Qed.

Lemma deleteMessage_unknown_or_repeated_witness :
  deleteMessage "no-such-id" Scenario.agent1 = Ok (true, Scenario.agent1).
Proof.
  apply (proj1 (deleteMessage_unknown_or_repeated "no-such-id" Scenario.agent1
                  eq_refl)).
  vm_compute. intros H. apply list_elem_of_In in H. simpl in H.
  destruct H as [H|[]]. discriminate.
Defined.

End StoreMore.


(** * Further properties of the project context *)

Section ContextMore.
Import Agent.

(** *** The set of services *)

Lemma set_elements_fold {A} `{EqDecision A} (c acc0 acc : list A) :
  fold_left (fun acc x => if decide (x ∈ acc) then acc else (acc ++ [x])%list)
    c (acc0 ++ acc)%list
  = (acc0
     ++ fold_left (fun acc x => if decide (x ∈ acc) then acc else (acc ++ [x])%list)
          (filter (fun x => x ∉ acc0) c) acc)%list.
Proof.
  revert acc. induction c as [|y c IH]; intros acc; simpl; [done|].
  rewrite filter_cons. destruct (decide (y ∉ acc0)) as [Hy|Hy]; simpl.
  - destruct (decide (y ∈ acc)) as [Hin|Hin].
    + rewrite decide_True by (apply elem_of_app; by right). apply IH.
    + rewrite decide_False by (rewrite elem_of_app; tauto).
      rewrite <- app_assoc. apply IH.
  - apply dec_stable in Hy.
    rewrite decide_True by (apply elem_of_app; by left). apply IH.
Qed.

Lemma set_elements_NoDup_id {A} `{EqDecision A} (x acc : list A) :
  NoDup (acc ++ x)%list ->
  fold_left (fun acc x => if decide (x ∈ acc) then acc else (acc ++ [x])%list)
    x acc
  = (acc ++ x)%list.
Proof.
  revert acc. induction x as [|y x IH]; intros acc Hnd; simpl.
  - by rewrite app_nil_r.
  - pose proof Hnd as Hnd'. apply NoDup_app in Hnd' as (_ & Hdisj & _).
    rewrite decide_False by (intros Hy; apply (Hdisj y Hy); by left).
    rewrite IH; rewrite <- app_assoc; done.
Qed.

Lemma set_elements_app {A} `{EqDecision A} (x c : list A) :
  NoDup x ->
  set_elements (x ++ c)%list = (x ++ set_elements (filter (fun s => s ∉ x) c))%list.
Proof.
  intros Hx. unfold set_elements. rewrite fold_left_app.
  rewrite (set_elements_NoDup_id x []) by done. simpl.
  rewrite <- (app_nil_r x) at 1. apply set_elements_fold.
Qed.

Lemma set_elements_absorb {A} `{EqDecision A} (x c : list A) :
  NoDup x -> (forall s, s ∈ c -> s ∈ x) -> set_elements (x ++ c)%list = x.
Proof.
  intros Hx Hsub. rewrite set_elements_app by done.
  replace (filter (fun s => s ∉ x) c) with (@nil A); [by rewrite app_nil_r|].
  symmetry. induction c as [|y c IH]; [done|].
  rewrite filter_cons_False by (intros Hy; apply Hy, Hsub; by left).
  apply IH. intros s Hs. apply Hsub. by right.
Qed.

(** X16. Merging services keeps what was stored where it was and
    appends the new tags behind it: when the stored list has no
    repetition, the merged list is the stored list followed by the tags
    of the update that it does not hold yet, each once, in the order of
    their first appearance. *)
Theorem merge_services_appends C P now x c :
  cloudflareServices C = Val x -> cloudflareServices P = Val c -> NoDup x ->
  cloudflareServices (merge C P now)
  = Val (x ++ set_elements (filter (fun s => s ∉ x) c))%list.
Proof.
  intros HC HP Hx. unfold merge. simpl. rewrite HC, HP.
  by rewrite set_elements_app.
Qed.

Lemma merge_services_appends_witness :
  cloudflareServices
    (merge (Scenario.only_services (Val [KV; D1]))
           (Scenario.only_services (Val [R2; KV; R2; Queues])) "t")
  = Val [KV; D1; R2; Queues].
Proof.
  apply (merge_services_appends _ _ "t" [KV; D1] [R2; KV; R2; Queues]);
    [reflexivity|reflexivity|].
  repeat constructor; intros H; apply list_elem_of_In in H; simpl in H;
    intuition discriminate.
Defined.

(** *** What an update leaves *)

Lemma getProjectContext_unavailable a :
  context_unavailable a = true -> getProjectContext a = Ok empty_context.
Proof.
  unfold context_unavailable, getProjectContext, one, try_catch, exec.
  destruct (broken (sql a)); simpl; [done|].
  destruct (project_context (sql a)) as [row|]; simpl; [|done].
  destruct (cell_readable (error_logs row)) eqn:H1; simpl.
  2: { destruct (parse_field_unreadable _ H1) as [m ->]. done. }
  destruct (parse_field_readable _ H1) as [el ->]. simpl.
  destruct (cell_readable (resolved_issues row)) eqn:H2; simpl.
  2: { destruct (parse_field_unreadable _ H2) as [m ->]. done. }
  destruct (parse_field_readable _ H2) as [ri ->]. simpl.
  destruct (cell_readable (cloudflare_services row)) eqn:H3; simpl; [done|].
  destruct (parse_field_unreadable _ H3) as [m ->]. done.
Qed.

(** X17. [updateProjectContext] never throws and reports through its
    result: it fails exactly when the storage refuses, and then nothing
    at all has changed; when it succeeds the merged context it returns
    is the row it stored, [lastUpdated] is the time of the call whatever
    the update held, the messages are untouched and the session's last
    activity is that same time. *)
Theorem updateProjectContext_outcome e P a :
  exists r a',
    updateProjectContext e P a = Ok (r, a') /\
    success r = negb (broken (sql a)) /\
    messages (sql a') = messages (sql a) /\
    if broken (sql a)
    then a' = a /\ data r = None /\ is_Some (error r)
    else exists merged,
        data r = Some merged /\ error r = None /\
        lastUpdated merged = Val (getCurrentTimestamp e) /\
        project_context (sql a') = Some (context_row merged) /\
        last_updated (context_row merged) = Some (getCurrentTimestamp e) /\
        (last_activity_at <$> session_info (sql a'))
        = ((fun _ => getCurrentTimestamp e) <$> session_info (sql a)).
Proof.
  destruct (broken (sql a)) eqn:Hb.
  - destruct (getProjectContext_total a) as [c Hc].
    unfold updateProjectContext. rewrite Hc.
    unfold try_catch, updateSessionActivity, exec. simpl. rewrite Hb. simpl.
    do 2 eexists. split; [reflexivity|]. simpl. split_and!; try done; by eexists.
  - destruct (getProjectContext_total a) as [c Hc].
    rewrite (updateProjectContext_Ok e P a c Hb Hc).
    do 2 eexists. split; [reflexivity|]. simpl. split_and!; try done.
    eexists. split_and!; try done; by destruct (session_info (sql a)).
Qed.

(** X18. When the stored row cannot be read (a JSON cell that does not
    parse) or there is none, an update does not merge: the row it
    writes is the update alone, so worker code, project name and lists
    that the old row held and the update does not carry are gone. *)
Theorem updateProjectContext_over_unreadable e P a :
  broken (sql a) = false -> context_unavailable a = true ->
  exists r a',
    updateProjectContext e P a = Ok (r, a') /\ success r = true /\
    project_context (sql a')
    = Some (context_row (merge empty_context P (getCurrentTimestamp e))).
Proof.
  intros Hb Hun. pose proof (getProjectContext_unavailable a Hun) as Hc.
  rewrite (updateProjectContext_Ok e P a _ Hb Hc). by do 2 eexists.
Qed.

Lemma updateProjectContext_over_unreadable_witness :
  exists r a' row,
    updateProjectContext Scenario.env1 (Scenario.only_projectName (Val "renamed"))
      Scenario.corrupted = Ok (r, a') /\
    project_context (sql a') = Some row /\
    worker_code row = None /\ cloudflare_services row = None /\
    project_name row = Some "renamed".
Proof.
  destruct (updateProjectContext_over_unreadable Scenario.env1
              (Scenario.only_projectName (Val "renamed")) Scenario.corrupted
              eq_refl eq_refl) as (r & a' & Hu & _ & Hrow).
  exists r, a'. eexists. split; [exact Hu|]. split; [exact Hrow|].
  split; [reflexivity|]. split; reflexivity.
Defined.

(** X19. [setWorkerCode(code, projectName)] stores the code and sets the
    project name to the argument: called without a name it stores
    [NULL] for the name, whatever name was stored before. *)
Theorem setWorkerCode_sets_both e code name a :
  broken (sql a) = false ->
  exists r a' row,
    setWorkerCode e code name a = Ok (r, a') /\ success r = true /\
    project_context (sql a') = Some row /\
    worker_code row = Some code /\ project_name row = name.
Proof.
  intros Hb. destruct (getProjectContext_total a) as [c Hc].
  unfold setWorkerCode. rewrite (updateProjectContext_Ok e _ a c Hb Hc).
  do 3 eexists. split; [reflexivity|]. simpl. split_and!; try done.
  by destruct name.
Qed.

Lemma setWorkerCode_sets_both_witness :
  exists r1 a1 r2 a2 row1 row2,
    setWorkerCode Scenario.env1 "v1" (Some "edge-api") Scenario.agent0 = Ok (r1, a1) /\
    project_context (sql a1) = Some row1 /\ project_name row1 = Some "edge-api" /\
    setWorkerCode Scenario.env2 "v2" None a1 = Ok (r2, a2) /\
    project_context (sql a2) = Some row2 /\
    worker_code row2 = Some "v2" /\ project_name row2 = None.
Proof.
  destruct (setWorkerCode_sets_both Scenario.env1 "v1" (Some "edge-api")
              Scenario.agent0 eq_refl) as (r1 & a1 & row1 & H1 & _ & Hrow1 & _ & Hn1).
  assert (broken (sql a1) = false) as Hb1.
  { destruct (updateProjectContext_frame _ _ _ _ _ H1) as [Hb _]. exact Hb. }
  destruct (setWorkerCode_sets_both Scenario.env2 "v2" None a1 Hb1)
    as (r2 & a2 & row2 & H2 & _ & Hrow2 & Hw2 & Hn2).
  exists r1, a1, r2, a2, row1, row2.
  split; [exact H1|]. split; [exact Hrow1|]. split; [exact Hn1|].
  split; [exact H2|]. split; [exact Hrow2|]. split; [exact Hw2|exact Hn2].
Defined.

(** *** Repeating and chaining updates *)

Lemma update_then_read e P a c :
  broken (sql a) = false -> getProjectContext a = Ok c ->
  let merged := merge c P (getCurrentTimestamp e) in
  exists r a',
    updateProjectContext e P a = Ok (r, a') /\ success r = true /\
    broken (sql a') = false /\
    project_context (sql a') = Some (context_row merged) /\
    getProjectContext a' = Ok (read_back merged).
Proof.
  intros Hb Hc merged. pose proof (updateProjectContext_Ok e P a c Hb Hc) as Hu.
  simpl in Hu. do 2 eexists. split; [exact Hu|]. split_and!; try done.
  by apply getProjectContext_written.
Qed.

Lemma stored_services_row a merged :
  project_context (sql a) = Some (context_row merged) ->
  Scenario.stored_services a = stringify_cell (cloudflareServices merged).
Proof. intros H. unfold Scenario.stored_services. by rewrite H. Qed.

Lemma stored_errorLogs_row a merged :
  project_context (sql a) = Some (context_row merged) ->
  Scenario.stored_errorLogs a = stringify_cell (errorLogs merged).
Proof. intros H. unfold Scenario.stored_errorLogs. by rewrite H. Qed.

(** X20. A services update settles at the latest on its second
    application: after [updateProjectContext(P)] has run twice with a
    services array in [P], the stored list has no repetition and holds
    every tag of [P], and running the same update again leaves the
    stored list exactly as it is. *)
Theorem services_settle e1 e2 P a c :
  broken (sql a) = false -> cloudflareServices P = Val c ->
  exists r1 a1 r2 a2 out,
    updateProjectContext e1 P a = Ok (r1, a1) /\
    updateProjectContext e2 P a1 = Ok (r2, a2) /\
    Scenario.stored_services a2 = Some (JsonOf out) /\
    NoDup out /\ (forall s, s ∈ c -> s ∈ out) /\
    forall e3, exists r3 a3,
      updateProjectContext e3 P a2 = Ok (r3, a3) /\
      Scenario.stored_services a3 = Some (JsonOf out).
Proof.
  intros Hb HP. destruct (getProjectContext_total a) as [c0 Hc0].
  destruct (update_then_read e1 P a c0 Hb Hc0) as (r1 & a1 & H1 & _ & Hb1 & _ & Hc1).
  destruct (update_then_read e2 P a1 _ Hb1 Hc1) as (r2 & a2 & H2 & _ & Hb2 & Hrow2 & Hc2).
  assert (exists s1, cloudflareServices (read_back (merge c0 P (getCurrentTimestamp e1)))
                     = Val s1) as [s1 Hs1].
  { unfold merge. simpl. rewrite HP. destruct (cloudflareServices c0); by eexists. }
  set (out := set_elements (s1 ++ c)%list).
  assert (cloudflareServices
            (merge (read_back (merge c0 P (getCurrentTimestamp e1))) P
               (getCurrentTimestamp e2)) = Val out) as Hout.
  { unfold merge at 1. cbn [cloudflareServices]. by rewrite HP, Hs1. }
  exists r1, a1, r2, a2, out. split_and!; try done.
  - rewrite (stored_services_row _ _ Hrow2). by rewrite Hout.
  - apply set_elements_NoDup.
  - intros s Hs. apply elem_of_set_elements, elem_of_app. by right.
  - intros e3. destruct (update_then_read e3 P a2 _ Hb2 Hc2)
      as (r3 & a3 & H3 & _ & _ & Hrow3 & _).
    exists r3, a3. split; [done|].
    rewrite (stored_services_row _ _ Hrow3).
    set (m2 := merge (read_back (merge c0 P (getCurrentTimestamp e1))) P
                 (getCurrentTimestamp e2)) in *.
    assert (cloudflareServices (read_back m2) = Val out) as Hrb
      by (unfold read_back; cbn [cloudflareServices]; by rewrite Hout).
    unfold merge. cbn [cloudflareServices].
    rewrite HP, Hrb. unfold stringify_cell. simpl. unfold JSON_stringify.
    do 2 f_equal. apply set_elements_absorb.
    + apply set_elements_NoDup.
    + intros s Hs. apply elem_of_set_elements, elem_of_app. by right.
Qed.

Lemma services_settle_witness :
  exists r1 a1 r2 a2 out,
    updateProjectContext Scenario.env1 (Scenario.only_services (Val [KV; KV]))
      Scenario.agent0 = Ok (r1, a1) /\
    updateProjectContext Scenario.env2 (Scenario.only_services (Val [KV; KV]))
      a1 = Ok (r2, a2) /\
    Scenario.stored_services a2 = Some (JsonOf out) /\ NoDup out.
Proof.
  destruct (services_settle Scenario.env1 Scenario.env2
              (Scenario.only_services (Val [KV; KV])) Scenario.agent0 [KV; KV]
              eq_refl eq_refl) as (r1 & a1 & r2 & a2 & out & H1 & H2 & Hs & Hn & _).
  exists r1, a1, r2, a2, out.
  split; [exact H1|]. split; [exact H2|]. split; [exact Hs|exact Hn].
Defined.

(** X21. Error logs accumulate in call order: two [addErrorLogs] calls
    leave the stored logs followed by the first batch, then the second,
    which is also what one call with both batches leaves. *)
Theorem addErrorLogs_chain e1 e2 l1 l2 a c :
  broken (sql a) = false -> getProjectContext a = Ok c ->
  exists r1 a1 r2 a2 c2 r3 a3,
    addErrorLogs e1 l1 a = Ok (r1, a1) /\
    addErrorLogs e2 l2 a1 = Ok (r2, a2) /\
    getProjectContext a2 = Ok c2 /\
    errorLogs c2 = Val (items (errorLogs c) ++ l1 ++ l2)%list /\
    addErrorLogs e2 (l1 ++ l2)%list a = Ok (r3, a3) /\
    Scenario.stored_errorLogs a3 = Scenario.stored_errorLogs a2.
Proof.
  intros Hb Hc. unfold addErrorLogs.
  destruct (update_then_read e1 (Scenario.only_errorLogs (Val l1)) a c Hb Hc)
    as (r1 & a1 & H1 & _ & Hb1 & _ & Hc1).
  destruct (update_then_read e2 (Scenario.only_errorLogs (Val l2)) a1 _ Hb1 Hc1)
    as (r2 & a2 & H2 & _ & _ & Hrow2 & Hc2).
  destruct (update_then_read e2 (Scenario.only_errorLogs (Val (l1 ++ l2)%list)) a c Hb Hc)
    as (r3 & a3 & H3 & _ & _ & Hrow3 & _).
  exists r1, a1, r2, a2. eexists. exists r3, a3.
  split; [exact H1|]. split; [exact H2|]. split; [exact Hc2|].
  split.
  - simpl. destruct (errorLogs c); simpl; by rewrite <- ?app_assoc.
  - rewrite (stored_errorLogs_row _ _ Hrow2), (stored_errorLogs_row _ _ Hrow3).
    simpl. destruct (errorLogs c); simpl; by rewrite <- ?app_assoc.
Qed.

Lemma addErrorLogs_chain_witness :
  exists r1 a1 r2 a2 c2,
    addErrorLogs Scenario.env1 ["first"] Scenario.agent0 = Ok (r1, a1) /\
    addErrorLogs Scenario.env2 ["second"; "third"] a1 = Ok (r2, a2) /\
    getProjectContext a2 = Ok c2 /\
    errorLogs c2 = Val ["first"; "second"; "third"].
Proof.
  destruct (addErrorLogs_chain Scenario.env1 Scenario.env2 ["first"]
              ["second"; "third"] Scenario.agent0 empty_context eq_refl eq_refl)
    as (r1 & a1 & r2 & a2 & c2 & _ & _ & H1 & H2 & Hc2 & Hlogs & _).
  exists r1, a1, r2, a2, c2.
  split; [exact H1|]. split; [exact H2|]. split; [exact Hc2|exact Hlogs].
Defined.

(** X22. [addResolvedIssue] appends exactly one issue, stamped with the
    time of the call and holding the arguments, behind the issues
    already stored; the stored error logs stay as they were. *)
Theorem addResolvedIssue_appends e i s codes files a c :
  broken (sql a) = false -> getProjectContext a = Ok c ->
  exists r a' c',
    addResolvedIssue e i s codes files a = Ok (r, a') /\ success r = true /\
    getProjectContext a' = Ok c' /\
    resolvedIssues c'
    = Val (items (resolvedIssues c)
           ++ [ {| issue_timestamp := getCurrentTimestamp e; issue := i;
                   solution := s; errorCodes := codes;
                   affectedFiles := files |} ])%list /\
    items (errorLogs c') = items (errorLogs c).
Proof.
  intros Hb Hc. unfold addResolvedIssue.
  destruct (update_then_read e
              {| workerCode := Absent; errorLogs := Absent;
                 resolvedIssues :=
                   Val [ {| issue_timestamp := getCurrentTimestamp e; issue := i;
                            solution := s; errorCodes := codes;
                            affectedFiles := files |} ];
                 cloudflareServices := Absent; projectName := Absent;
                 lastUpdated := Absent |} a c Hb Hc)
    as (r & a' & Hu & Hs & _ & _ & Hc').
  exists r, a'. eexists. split; [exact Hu|]. split; [exact Hs|].
  split; [exact Hc'|]. simpl. split.
  - by destruct (resolvedIssues c).
  - by destruct (errorLogs c).
Qed.

Lemma addResolvedIssue_appends_witness :
  exists r a' c',
    addResolvedIssue Scenario.env1 "KV read returns null" "await the get() call"
      (Some ["KV_GET"]) None Scenario.agent0 = Ok (r, a') /\
    getProjectContext a' = Ok c' /\
    length (items (resolvedIssues c')) = 1%nat.
Proof.
  destruct (addResolvedIssue_appends Scenario.env1 "KV read returns null"
              "await the get() call" (Some ["KV_GET"]) None Scenario.agent0
              empty_context eq_refl eq_refl)
    as (r & a' & c' & Hu & _ & Hc' & Hri & _).
  exists r, a', c'. split; [exact Hu|]. split; [exact Hc'|].
  rewrite Hri. reflexivity.
Defined.

End ContextMore.


(** * The methods together *)

Section Calls.
Import Agent.

Lemma getFullState_inv e a st a' :
  getFullState e a = Ok (st, a') ->
  exists s a1 ms c,
    ensureSession e a = Ok (s, a1) /\
    getConversationHistory e no_options a1 = Ok (ms, a') /\
    getProjectContext a' = Ok c /\
    st = {| state_session := default s (sessionCache a');
            state_messages := ms; state_projectContext := c |}.
Proof.
  unfold getFullState, getSessionInfo.
  destruct (ensureSession e a) as [[s a1]|] eqn:Hs; simpl; [|discriminate].
  destruct (getConversationHistory e no_options a1) as [[ms a2]|] eqn:Hm;
    simpl; [|discriminate].
  destruct (getProjectContext a2) as [c|] eqn:Hc; simpl; [|discriminate].
  intros [= <- <-]. by exists s, a1, ms, c.
Qed.

Lemma ensureSession_row e a s a' row :
  ensureSession e a = Ok (s, a') -> session_info (sql a) = Some row ->
  sql a' = sql a /\ s = session_of_row row /\ sessionCache a' = Some s.
Proof.
  unfold ensureSession, exec. destruct (broken (sql a)); simpl; [discriminate|].
  intros H Hrow. rewrite Hrow in H. by injection H as <- <-.
Qed.

(** The session row across an update of the context. *)
Lemma update_session_row e P a a' row :
  snd <$> updateProjectContext e P a = Ok a' ->
  session_info (sql a) = Some row ->
  forall c : Call, (c = CallDeactivateSession -> False) ->
  exists row',
    session_info (sql a') = Some row' /\
    session_id row' = session_id row /\
    created_at row' = created_at row /\
    (is_active row = 0 -> is_active row' = 0) /\
    (c = CallDeactivateSession -> is_active row' = 0).
Proof.
  intros Hp Hrow c Hnd. destruct (broken (sql a)) eqn:Hb.
  - destruct (updateProjectContext_broken e P a Hb) as (r & Hr & _).
    rewrite Hr in Hp. injection Hp as <-. exists row. split_and!; done.
  - destruct (getProjectContext_total a) as [x Hx].
    rewrite (updateProjectContext_Ok e P a x Hb Hx) in Hp. injection Hp as <-.
    simpl. rewrite Hrow. simpl. eexists. split_and!; done.
Qed.

(** Good order is kept by every call that returns. *)
Lemma perform_wf e c a a' : perform e c a = Ok a' -> wf a -> wf a'.
Proof.
  intros Hp Hwf.
  assert (forall P, snd <$> updateProjectContext e P a = Ok a' -> wf a') as Hupd.
  { intros P HP.
    destruct (updateProjectContext e P a) as [[r a1]|] eqn:H; [|discriminate].
    injection HP as <-. apply updateProjectContext_frame in H as [Hb Hm].
    by apply (wf_same_messages a). }
  destruct c; simpl in Hp; try (by eapply Hupd).
  - destruct (addMessage e r c md a) as [[m a1]|] eqn:H; simpl in Hp; [|discriminate].
    injection Hp as <-. apply addMessage_frame in H as (_ & Hb & Hnew & Hm).
    destruct Hwf as [_ Hids Hmd]. split; [done| |]; rewrite Hm.
    + rewrite fmap_app. apply NoDup_app. split_and!; [done| |by apply NoDup_singleton].
      intros x Hx [->|[]%elem_of_nil]%elem_of_cons. by apply Hnew.
    + rewrite forallb_app, Hmd. simpl. unfold metadata_readable. simpl.
      by destruct md.
  - destruct (getConversationHistory e o a) as [[ms a1]|] eqn:H; simpl in Hp;
      [|discriminate].
    injection Hp as <-. apply getConversationHistory_Ok_state in H as [_ ->].
    by apply (wf_same_messages a).
  - destruct (getMessageCount a); simpl in Hp; [|discriminate]. by injection Hp as <-.
  - destruct Hwf as [Hb Hids Hmd].
    rewrite (deleteMessage_Ok _ _ Hb) in Hp. injection Hp as <-.
    split; simpl; [done|by apply filter_ids_NoDup|].
    eapply forallb_sublist; [|exact Hmd]. by intros x [_ ?]%list_elem_of_filter.
  - destruct (getProjectContext a); simpl in Hp; [|discriminate]. by injection Hp as <-.
  - destruct (getSessionInfo e a) as [[s a1]|] eqn:H; simpl in Hp; [|discriminate].
    injection Hp as <-. apply ensureSession_frame in H as (Hb & Hm & _).
    by apply (wf_same_messages a).
  - destruct Hwf as [Hb Hids Hmd].
    destruct (clearSession_unbroken e a Hb) as (r & Hr & _).
    rewrite Hr in Hp. injection Hp as <-. split; simpl; [done|constructor|done].
  - apply (wf_same_messages a); [| |done]; revert Hp;
      unfold deactivateSession, exec;
      (destruct (broken (sql a)) eqn:Hb; simpl; [discriminate|]);
      intros [= <-]; simpl; by rewrite ?Hb.
  - destruct (getFullState e a) as [[st a2]|] eqn:H; simpl in Hp; [|discriminate].
    injection Hp as <-.
    apply getFullState_inv in H as (s & a1 & ms & c & Hs & Hm & _ & _).
    apply ensureSession_frame in Hs as (Hb & Hmsgs & _).
    apply getConversationHistory_Ok_state in Hm as [_ ->].
    by apply (wf_same_messages a).
Qed.

(** X23. No call gives a session a new identity or brings it back to
    life: every call other than [clearSession] that returns keeps the
    session row with its [session_id] and [created_at], and leaves an
    inactive session inactive; [deactivateSession] leaves it
    inactive. *)
Theorem session_survives_calls e c a a' row :
  is_clear c = false ->
  perform e c a = Ok a' ->
  session_info (sql a) = Some row ->
  exists row',
    session_info (sql a') = Some row' /\
    session_id row' = session_id row /\
    created_at row' = created_at row /\
    (is_active row = 0 -> is_active row' = 0) /\
    (c = CallDeactivateSession -> is_active row' = 0).
Proof.
  intros Hc Hp Hrow.
  assert (forall x, session_info (sql x) = Some row ->
            (c = CallDeactivateSession -> False) ->
            exists row', session_info (sql x) = Some row' /\
              session_id row' = session_id row /\ created_at row' = created_at row /\
              (is_active row = 0 -> is_active row' = 0) /\
              (c = CallDeactivateSession -> is_active row' = 0)) as Hsame.
  { intros x Hx Hnd. exists row. split_and!; try done. }
  assert (forall now x, session_info (sql x) = Some row ->
            (c = CallDeactivateSession -> False) ->
            exists row', session_info (sql (touch now x)) = Some row' /\
              session_id row' = session_id row /\ created_at row' = created_at row /\
              (is_active row = 0 -> is_active row' = 0) /\
              (c = CallDeactivateSession -> is_active row' = 0)) as Htouched.
  { intros now x Hx Hnd. unfold touch. simpl. rewrite Hx. simpl. eexists.
    split_and!; try done. }
  destruct c; simpl in Hc, Hp; try discriminate.
  - destruct (addMessage e r c md a) as [[m a1]|] eqn:H; simpl in Hp; [|discriminate].
    injection Hp as <-. apply addMessage_Ok_inv in H as (_ & _ & _ & ->).
    unfold touch, bump. simpl. rewrite Hrow. simpl. eexists. split_and!; try done.
  - destruct (getConversationHistory e o a) as [[ms a1]|] eqn:H; simpl in Hp;
      [|discriminate].
    injection Hp as <-. apply getConversationHistory_Ok_state in H as [_ ->].
    by apply Htouched.
  - destruct (getMessageCount a); simpl in Hp; [|discriminate].
    injection Hp as <-. by apply Hsame.
  - destruct (broken (sql a)) eqn:Hb.
    + rewrite (deleteMessage_broken _ _ Hb) in Hp. injection Hp as <-. by apply Hsame.
    + rewrite (deleteMessage_Ok _ _ Hb) in Hp. injection Hp as <-. by apply Hsame.
  - by apply (update_session_row e context a a' row Hp Hrow).
  - destruct (getProjectContext a); simpl in Hp; [|discriminate].
    injection Hp as <-. by apply Hsame.
  - by apply (update_session_row e _ a a' row Hp Hrow).
  - by apply (update_session_row e _ a a' row Hp Hrow).
  - by apply (update_session_row e _ a a' row Hp Hrow).
  - destruct (getSessionInfo e a) as [[s a1]|] eqn:H; simpl in Hp; [|discriminate].
    injection Hp as <-.
    destruct (ensureSession_row e a s a1 row H Hrow) as (Hsql & _).
    apply Hsame; [by rewrite Hsql|done].
  - unfold deactivateSession, exec in Hp.
    destruct (broken (sql a)); simpl in Hp; [discriminate|].
    injection Hp as <-. simpl. rewrite Hrow. simpl. eexists. split_and!; done.
  - destruct (getFullState e a) as [[st a2]|] eqn:H; simpl in Hp; [|discriminate].
    injection Hp as <-.
    apply getFullState_inv in H as (s & a1 & ms & c & Hs & Hm & _ & _).
    destruct (ensureSession_row e a s a1 row Hs Hrow) as (Hsql & _).
    apply getConversationHistory_Ok_state in Hm as [_ ->].
    apply Htouched; [by rewrite Hsql|done].
Qed.

Lemma session_survives_calls_witness :
  exists a' row',
    perform Scenario.env2 CallDeactivateSession Scenario.agent1 = Ok a' /\
    session_info (sql a') = Some row' /\
    session_id row' = session_id Scenario.session1 /\
    is_active row' = 0.
Proof.
  eexists.
  destruct (session_survives_calls Scenario.env2 CallDeactivateSession
              Scenario.agent1 _ Scenario.session1 eq_refl eq_refl eq_refl)
    as (row' & Hrow & Hid & _ & _ & Hoff).
  exists row'. split; [reflexivity|]. split; [exact Hrow|].
  split; [exact Hid|exact (Hoff eq_refl)].
Defined.

(** X24. Each table has its writers: a call that returns leaves the
    stored messages as they were unless it is [addMessage],
    [deleteMessage] or [clearSession], and leaves the context row as it
    was unless it is [updateProjectContext], one of its three wrappers
    or [clearSession]. *)
Theorem calls_frame e c a a' :
  perform e c a = Ok a' ->
  (writes_messages c = false -> messages (sql a') = messages (sql a)) /\
  (writes_context c = false ->
   project_context (sql a') = project_context (sql a)).
Proof.
  intros Hp.
  assert (forall P, snd <$> updateProjectContext e P a = Ok a' ->
                    messages (sql a') = messages (sql a)) as Hupd.
  { intros P HP.
    destruct (updateProjectContext e P a) as [[r a1]|] eqn:H; [|discriminate].
    injection HP as <-. by apply updateProjectContext_frame in H as [_ ?]. }
  destruct c; simpl in Hp; (split; [intros Hw|intros Hw]); try discriminate;
    try (by eapply Hupd).
  - destruct (addMessage e r c md a) as [[m a1]|] eqn:H; simpl in Hp; [|discriminate].
    injection Hp as <-. by apply addMessage_Ok_inv in H as (_ & _ & _ & ->).
  - destruct (getConversationHistory e o a) as [[ms a1]|] eqn:H; simpl in Hp;
      [|discriminate].
    injection Hp as <-. by apply getConversationHistory_Ok_state in H as [_ ->].
  - destruct (getConversationHistory e o a) as [[ms a1]|] eqn:H; simpl in Hp;
      [|discriminate].
    injection Hp as <-. by apply getConversationHistory_Ok_state in H as [_ ->].
  - destruct (getMessageCount a); simpl in Hp; [|discriminate]. by injection Hp as <-.
  - destruct (getMessageCount a); simpl in Hp; [|discriminate]. by injection Hp as <-.
  - destruct (broken (sql a)) eqn:Hb.
    + rewrite (deleteMessage_broken _ _ Hb) in Hp. by injection Hp as <-.
    + rewrite (deleteMessage_Ok _ _ Hb) in Hp. by injection Hp as <-.
  - destruct (getProjectContext a); simpl in Hp; [|discriminate]. by injection Hp as <-.
  - destruct (getProjectContext a); simpl in Hp; [|discriminate]. by injection Hp as <-.
  - destruct (getSessionInfo e a) as [[s a1]|] eqn:H; simpl in Hp; [|discriminate].
    injection Hp as <-. by apply ensureSession_frame in H as (_ & ? & _).
  - destruct (getSessionInfo e a) as [[s a1]|] eqn:H; simpl in Hp; [|discriminate].
    injection Hp as <-. by apply ensureSession_frame in H as (_ & _ & ?).
  - by apply deactivateSession_Ok in Hp as (_ & ? & _).
  - by apply deactivateSession_Ok in Hp as (_ & _ & ? & _).
  - destruct (getFullState e a) as [[st a2]|] eqn:H; simpl in Hp; [|discriminate].
    injection Hp as <-.
    apply getFullState_inv in H as (s & a1 & ms & c & Hs & Hm & _ & _).
    apply ensureSession_frame in Hs as (_ & Hmsgs & _).
    apply getConversationHistory_Ok_state in Hm as [_ ->]. simpl. done.
  - destruct (getFullState e a) as [[st a2]|] eqn:H; simpl in Hp; [|discriminate].
    injection Hp as <-.
    apply getFullState_inv in H as (s & a1 & ms & c & Hs & Hm & _ & _).
    apply ensureSession_frame in Hs as (_ & _ & Hctx).
    apply getConversationHistory_Ok_state in Hm as [_ ->]. simpl. done.
Qed.

Lemma calls_frame_witness :
  exists a',
    perform Scenario.env2 (CallSetWorkerCode "export default {}" None)
      Scenario.agent1 = Ok a' /\
    messages (sql a') = [Scenario.hello_row].
Proof.
  eexists. split; [reflexivity|].
  apply (proj1 (calls_frame Scenario.env2
                  (CallSetWorkerCode "export default {}" None)
                  Scenario.agent1 _ eq_refl)).
  reflexivity.
Defined.

(** What a call other than [clearSession] does to the session row, to
    its cache and to the counter. *)
Lemma perform_session_step e c a a' row :
  is_clear c = false ->
  perform e c a = Ok a' ->
  session_info (sql a) = Some row ->
  broken (sql a') = broken (sql a) /\
  exists row',
    session_info (sql a') = Some row' /\
    (sessionCache a = Some (session_of_row row) ->
     sessionCache a' = Some (session_of_row row')) /\
    (Z.of_nat (length (messages (sql a))) <= message_count row ->
     Z.of_nat (length (messages (sql a'))) <= message_count row').
Proof.
  intros Hc Hp Hrow.
  pose (G := fun x : Agent =>
    broken (sql x) = broken (sql a) /\
    exists row',
      session_info (sql x) = Some row' /\
      (sessionCache a = Some (session_of_row row) ->
       sessionCache x = Some (session_of_row row')) /\
      (Z.of_nat (length (messages (sql a))) <= message_count row ->
       Z.of_nat (length (messages (sql x))) <= message_count row')).
  change (G a').
  assert (G a) as Hsame.
  { split; [done|]. by exists row. }
  assert (forall now x,
            broken (sql x) = broken (sql a) ->
            messages (sql x) = messages (sql a) ->
            session_info (sql x) = Some row ->
            (sessionCache a = Some (session_of_row row) ->
             sessionCache x = Some (session_of_row row)) ->
            G (touch now x)) as Htouched.
  { intros now x Hxb Hxm Hxs Hxc. unfold G, touch. simpl. rewrite Hxs. simpl.
    split; [done|]. eexists. split_and!; [done| |by rewrite Hxm].
    intros Hcache. by rewrite (Hxc Hcache). }
  assert (forall P, snd <$> updateProjectContext e P a = Ok a' -> G a') as Hupd.
  { intros P HP. destruct (broken (sql a)) eqn:Hb.
    - destruct (updateProjectContext_broken e P a Hb) as (r & Hr & _).
      rewrite Hr in HP. by injection HP as <-.
    - destruct (getProjectContext_total a) as [x Hx].
      rewrite (updateProjectContext_Ok e P a x Hb Hx) in HP. injection HP as <-.
      by apply Htouched. }
  destruct c; simpl in Hc, Hp; try discriminate; try (by eapply Hupd).
  - destruct (addMessage e r c md a) as [[m a1]|] eqn:H; simpl in Hp; [|discriminate].
    injection Hp as <-. apply addMessage_Ok_inv in H as (_ & _ & _ & ->).
    unfold G, touch, bump. simpl. rewrite Hrow. simpl. split; [done|].
    eexists. split_and!; [done| |].
    + by intros ->.
    + simpl. rewrite length_app. simpl. lia.
  - destruct (getConversationHistory e o a) as [[ms a1]|] eqn:H; simpl in Hp;
      [|discriminate].
    injection Hp as <-. apply getConversationHistory_Ok_state in H as [_ ->].
    by apply Htouched.
  - destruct (getMessageCount a); simpl in Hp; [|discriminate]. by injection Hp as <-.
  - destruct (broken (sql a)) eqn:Hb.
    + rewrite (deleteMessage_broken _ _ Hb) in Hp. by injection Hp as <-.
    + rewrite (deleteMessage_Ok _ _ Hb) in Hp. injection Hp as <-.
      unfold G. simpl. split; [done|]. exists row. split_and!; [done|done|].
      pose proof (length_filter (fun r => row_id r <> messageId) (messages (sql a))).
      lia.
  - destruct (getProjectContext a); simpl in Hp; [|discriminate]. by injection Hp as <-.
  - destruct (getSessionInfo e a) as [[s a1]|] eqn:H; simpl in Hp; [|discriminate].
    injection Hp as <-.
    destruct (ensureSession_row e a s a1 row H Hrow) as (Hsql & -> & Hcache).
    unfold G. rewrite Hsql. split; [done|]. by exists row.
  - unfold deactivateSession, exec in Hp.
    destruct (broken (sql a)) eqn:Hb; simpl in Hp; [discriminate|].
    injection Hp as <-. unfold G. simpl. rewrite Hrow. simpl. split; [done|].
    eexists. split_and!; [done| |done]. by intros ->.
  - destruct (getFullState e a) as [[st a2]|] eqn:H; simpl in Hp; [|discriminate].
    injection Hp as <-.
    apply getFullState_inv in H as (s & a1 & ms & c & Hs & Hm & _ & _).
    destruct (ensureSession_row e a s a1 row Hs Hrow) as (Hsql & -> & Hcache).
    apply getConversationHistory_Ok_state in Hm as [_ ->].
    apply Htouched; by rewrite ?Hsql.
Qed.

(** X9. The cache mirrors the session row.  The constructor returns
    only on a storage that holds a session row, and then the cache is
    that row; every call other than [clearSession] that returns keeps a
    session row and keeps the cache equal to it; and where the cache is
    the row and the storage answers, [getSessionInfo] returns that
    session and leaves the object as it was, and building the object
    anew on the same storage (after an eviction) gives the same
    object. *)
Theorem session_mirrors_row :
  (forall e db a,
     construct e db = Ok a ->
     exists row, session_info db = Some row /\ sql a = db /\
                 sessionCache a = Some (session_of_row row)) /\
  (forall e c a a' row,
     is_clear c = false -> perform e c a = Ok a' ->
     session_info (sql a) = Some row ->
     sessionCache a = Some (session_of_row row) ->
     exists row', session_info (sql a') = Some row' /\
                  sessionCache a' = Some (session_of_row row')) /\
  (forall a row,
     broken (sql a) = false ->
     session_info (sql a) = Some row ->
     sessionCache a = Some (session_of_row row) ->
     forall e, getSessionInfo e a = Ok (session_of_row row, a) /\
               construct e (sql a) = Ok a).
Proof.
  split_and!.
  - intros e db a. unfold construct, ensureSession, one, exec. simpl.
    destruct (broken db); simpl; [discriminate|].
    destruct (session_info db) as [row|]; simpl; [|discriminate].
    intros [= <-]. by exists row.
  - intros e c a a' row Hc Hp Hrow Hcache.
    destruct (perform_session_step e c a a' row Hc Hp Hrow)
      as (_ & row' & Hrow' & Hcache' & _).
    exists row'. split; [done|]. by apply Hcache'.
  - intros a row Hb Hrow Hcache e. unfold construct, getSessionInfo.
    rewrite (ensureSession_Ok e a row Hb Hrow).
    rewrite (ensureSession_Ok e {| sql := sql a; sessionCache := None |} row Hb Hrow).
    simpl. destruct a as [db cache]. simpl in *. by subst cache.
Qed.

Lemma session_mirrors_row_witness :
  getSessionInfo Scenario.env2 Scenario.agent1
  = Ok (session_of_row Scenario.session1, Scenario.agent1) /\
  construct Scenario.env2 (sql Scenario.agent1) = Ok Scenario.agent1.
Proof.
  exact (proj2 (proj2 session_mirrors_row) Scenario.agent1 Scenario.session1
           eq_refl eq_refl eq_refl Scenario.env2).
Defined.

(** X10. The message counter does not come to undercount: where
    [message_count] is at least the number of stored messages, it still
    is after every call other than [clearSession] that returns
    ([addMessage] raises both by one, [deleteMessage] lowers only the
    number of rows), and [getMessageCount] answers with the number of
    rows, not with the counter. *)
Theorem message_count_covers_rows e c a a' row :
  is_clear c = false ->
  perform e c a = Ok a' ->
  session_info (sql a) = Some row ->
  Z.of_nat (length (messages (sql a))) <= message_count row ->
  exists row',
    session_info (sql a') = Some row' /\
    Z.of_nat (length (messages (sql a'))) <= message_count row' /\
    (broken (sql a) = false ->
     getMessageCount a' = Ok (Z.of_nat (length (messages (sql a'))))).
Proof.
  intros Hc Hp Hrow Hcount.
  destruct (perform_session_step e c a a' row Hc Hp Hrow)
    as (Hb' & row' & Hrow' & _ & Hcount').
  exists row'. split_and!; [done|by apply Hcount'|].
  intros Hb. unfold getMessageCount, exec. by rewrite Hb', Hb.
Qed.

Lemma message_count_covers_rows_witness :
  exists a' row',
    perform Scenario.env2 (CallDeleteMessage "1767225601500-p0a7c4e8d")
      Scenario.agent1 = Ok a' /\
    session_info (sql a') = Some row' /\
    Z.of_nat (length (messages (sql a'))) <= message_count row' /\
    getMessageCount a' = Ok (Z.of_nat (length (messages (sql a')))).
Proof.
  eexists.
  destruct (message_count_covers_rows Scenario.env2
              (CallDeleteMessage "1767225601500-p0a7c4e8d")
              Scenario.agent1 _ Scenario.session1 eq_refl eq_refl eq_refl)
    as (row' & Hrow & Hle & Hget).
  - vm_compute. discriminate.
  - exists row'. split; [reflexivity|]. split; [exact Hrow|].
    split; [exact Hle|exact (Hget eq_refl)].
Defined.



End Calls.

(** * The text of a chat message *)

Section Text.
Import Server.

Lemma string_append_assoc (s t u : string) :
  ((s ++ t) ++ u)%string = (s ++ t ++ u)%string.
Proof.
  induction s as [|c s IH]; [done|].
  change (String c ((s ++ t) ++ u) = String c (s ++ t ++ u))%string.
  by f_equal.
Qed.

Lemma concat_app_nonempty sep (l1 l2 : list string) :
  l1 <> [] -> l2 <> [] ->
  String.concat sep (l1 ++ l2)%list
  = (String.concat sep l1 ++ sep ++ String.concat sep l2)%string.
Proof.
  intros H1 H2. induction l1 as [|x l1 IH]; [done|].
  destruct l1 as [|y l1].
  - destruct l2 as [|z l2]; [done|]. reflexivity.
  - change (String.concat sep ((x :: y :: l1) ++ l2)%list)
      with (x ++ sep ++ String.concat sep ((y :: l1) ++ l2)%list)%string.
    rewrite IH by done.
    change (String.concat sep (x :: y :: l1))
      with (x ++ sep ++ String.concat sep (y :: l1))%string.
    by rewrite !string_append_assoc.
Qed.

(** X26. The text kept of a chat message is that of its text parts
    alone: parts of any other type contribute nothing wherever they
    stand, a message without parts or without text parts gives the empty
    string, and the texts on either side of a split are joined by one
    newline when both sides have some. *)
Theorem extractTextContent_text_only :
  extractTextContent None = "" /\
  (forall ps, Forall (fun p => part_text p = None) ps ->
              extractTextContent (Some ps) = "") /\
  (forall ps ty qs,
      extractTextContent (Some (ps ++ OtherPart ty :: qs)%list)
      = extractTextContent (Some (ps ++ qs)%list)) /\
  (forall ps qs,
      omap part_text ps <> [] -> omap part_text qs <> [] ->
      extractTextContent (Some (ps ++ qs)%list)
      = (extractTextContent (Some ps) ++ String "010"%char ""
         ++ extractTextContent (Some qs))%string).
Proof.
  unfold extractTextContent, join_lines. split_and!.
  - done.
  - intros ps Hps. replace (omap part_text ps) with (@nil string); [done|].
    symmetry. induction Hps as [|p ps Hp _ IH]; [done|].
    simpl. by rewrite Hp.
  - intros ps ty qs. by rewrite !omap_app.
  - intros ps qs Hps Hqs. rewrite omap_app. by apply concat_app_nonempty.
Qed.

Lemma extractTextContent_witness :
  extractTextContent
    (Some [OtherPart "step-start"; TextPart "Your Worker"; OtherPart "tool-call";
           TextPart "is fine."])
  = (extractTextContent (Some [OtherPart "step-start"; TextPart "Your Worker"])
     ++ String "010"%char ""
     ++ extractTextContent (Some [OtherPart "tool-call"; TextPart "is fine."]))%string.
Proof.
  destruct extractTextContent_text_only as (_ & _ & _ & Happ).
  apply (Happ [OtherPart "step-start"; TextPart "Your Worker"]
              [OtherPart "tool-call"; TextPart "is fine."]); discriminate.
Defined.

End Text.
